(** * Drone-Jamming: the jam-detection-and-response control loop

    A shallow embedding of [tempCodeRunnerFile.py]: signal generation,
    spectral anomaly scoring, the learned jamming classifier, the channel
    object with its switch and hop operations, the encrypted confirmation
    message, and the controller's [monitor_and_respond] cycle.

    Conventions of the embedding.
    - numpy's float arrays are lists of real numbers ([R]); the sine, the
      discrete Fourier transform and the magnitude are the mathematical ones.
    - Python exceptions are the [Raise] outcome of a small state-and-error
      monad [M].  The state of the monad is the ambient world of the script:
      the stream of draws of the [random] module (a finite prefix of it, the
      [tape]) and the sequence of operations performed so far (the [trace];
      one event per operation, at the place where the script writes the
      operation's log line, or at the end of an operation that may write
      none).
    - A computation that asks for a draw beyond the recorded prefix ends in
      [Starved]: it is the only way the unbounded [while] loop of
      [frequency_hopping] is cut short.
    - Objects are records; a method takes [self] and gives back the updated
      [self] next to its return value.
    - What the script imports from libraries it does not define
      (scikit-learn's forest, [cryptography]'s Fernet) is a parameter of the
      development: the fitted decision function, the cipher's two maps. *)

From Stdlib Require Import ZArith List Bool Lia Reals Lra.
From Stdlib Require String Ascii.
Import ListNotations.
Import String.StringSyntax.

Set Implicit Arguments.

(** ** Outcomes, exceptions, the world *)

Inductive exn : Type :=
| IndexError
| ValueError
| UnicodeEncodeError
| UnicodeDecodeError
| InvalidToken.

Inductive outcome (A : Type) : Type :=
| Return (a : A)
| Raise (e : exn)
| Starved.

Arguments Raise {A} e.
Arguments Starved {A}.

(** A Python value as far as the channel methods return one. *)
Inductive pyval : Type :=
| PyNone
| PyInt (n : Z).

(** One event per operation of a monitoring cycle. *)
Inductive Op : Type :=
| OpScore
| OpClassify
| OpSwitch (old new : Z)
| OpHop (old new : Z)
| OpRecovery
| OpEncrypt
| OpDecrypt.

Record World : Type := mkWorld {
  tape : list nat;
  trace : list Op
}.

Definition M (A : Type) : Type := World -> outcome (A * World).

Definition ret {A} (a : A) : M A := fun w => Return (a, w).

Definition bind {A B} (m : M A) (k : A -> M B) : M B :=
  fun w =>
    match m w with
    | Return (a, w') => k a w'
    | Raise e => Raise e
    | Starved => Starved
    end.

Definition raise {A} (e : exn) : M A := fun _ => Raise e.

Notation "x <- m ;; k" := (bind m (fun x => k))
  (at level 61, m at next level, right associativity).
Notation "m ;;; k" := (bind m (fun _ => k))
  (at level 61, right associativity).

Definition emit (e : Op) : M unit :=
  fun w => Return (tt, mkWorld (tape w) (trace w ++ [e])).

(** [random.choice(seq)]: [IndexError] on an empty sequence, otherwise the
    element at a random index below [len(seq)]. *)
Definition random_choice {A} (seq : list A) : M A :=
  fun w =>
    match seq with
    | [] => Raise IndexError
    | d :: _ =>
        match tape w with
        | [] => Starved
        | r :: t => Return (nth (r mod length seq) seq d, mkWorld t (trace w))
        end
    end.

(** A [while] loop.  Every iteration of the one loop of the script draws from
    the tape, so a loop given as many rounds as the tape has draws left is cut
    short only where the tape would be. *)
Fixpoint while_ {S} (fuel : nat) (cond : S -> bool) (body : S -> M S) (s : S)
  : M S :=
  if cond s then
    match fuel with
    | O => fun _ => Starved
    | Datatypes.S n => s' <- body s ;; while_ n cond body s'
    end
  else ret s.

Definition while_tape {S} (cond : S -> bool) (body : S -> M S) (s : S) : M S :=
  fun w => while_ (length (tape w)) cond body s w.

(** ** CommunicationChannel *)

Record CommunicationChannel : Type := mkChannel {
  channels : list Z;
  current_channel : Z
}.

Definition set_current (self : CommunicationChannel) (c : Z)
  : CommunicationChannel :=
  mkChannel (channels self) c.

(** [CommunicationChannel.__init__] *)
Definition CommunicationChannel_init : M CommunicationChannel :=
  let chs := [1; 2; 3; 4; 5]%Z in
  c <- random_choice chs ;;
  ret (mkChannel chs c).

(** [CommunicationChannel.switch_channel] *)
Definition switch_channel (self : CommunicationChannel)
  : M (pyval * CommunicationChannel) :=
  let available_channels :=
    filter (fun ch => negb (ch =? current_channel self)%Z) (channels self) in
  c <- random_choice available_channels ;;
  emit (OpSwitch (current_channel self) c) ;;;
  ret (PyNone, set_current self c).

(** [CommunicationChannel.frequency_hopping] *)
Definition frequency_hopping (self : CommunicationChannel)
  : M (pyval * CommunicationChannel) :=
  new_channel <- random_choice (channels self) ;;
  new_channel <- while_tape
      (fun new_channel => (new_channel =? current_channel self)%Z)
      (fun _ => random_choice (channels self))
      new_channel ;;
  emit (OpHop (current_channel self) new_channel) ;;;
  ret (PyNone, set_current self new_channel).

(** [CommunicationChannel.recovery_strategy] *)
Definition recovery_strategy (self : CommunicationChannel)
  : M (pyval * CommunicationChannel) :=
  emit OpRecovery ;;;
  r <- switch_channel self ;;
  ret (PyNone, snd r).

(** ** Signals *)

Local Open Scope R_scope.

(** [np.linspace(start, stop, num)] with numpy's default [endpoint=True]:
    the step is [(stop - start) / (num - 1)], sample [i] is
    [i * step + start], and the last sample is set to [stop]. *)
Definition linspace (start stop : R) (num : nat) : list R :=
  let div := (num - 1)%nat in
  let step := (stop - start) / INR div in
  let y := map (fun i => INR i * step + start) (seq 0 num) in
  if (1 <? num)%nat then firstn (num - 1) y ++ [stop] else y.

(** Addition of two arrays of one shape. *)
Definition vadd (a b : list R) : list R :=
  map (fun p => fst p + snd p) (combine a b).

(** [np.random.normal(size=n)]: [n] standard normal draws; [normal i] is the
    draw that lands at index [i]. *)
Definition random_normal (normal : nat -> R) (size : nat) : list R :=
  map normal (seq 0 size).

(** [generate_signal]; the draws of its call to [np.random.normal] are the
    argument [normal]. *)
Definition generate_signal (frequency noise_level : R) (normal : nat -> R)
  : list R :=
  let time_points := linspace 0 1 500 in
  let signal := map (fun t => sin (2 * PI * frequency * t)) time_points in
  let noise :=
    map (fun z => noise_level * z)
        (random_normal normal (length time_points)) in
  vadd signal noise.

(** The time grid the spec describes: 500 evenly spaced points of the
    half-open interval, the point [1] left out. *)
Definition half_open_grid (num : nat) : list R :=
  map (fun i => INR i / INR num) (seq 0 num).

(** ** The anomaly scorer *)

(** The discrete Fourier transform, bin [k] of an array of [N] samples:
    the sum of [x_n * exp (- 2 pi i k n / N)], as real and imaginary part. *)
Fixpoint dft_bin (N k n : nat) (x : list R) : R * R :=
  match x with
  | [] => (0, 0)
  | a :: t =>
      let theta := 2 * PI * INR k * INR n / INR N in
      let rest := dft_bin N k (S n) t in
      (a * cos theta + fst rest, - (a * sin theta) + snd rest)
  end.

Definition dft (x : list R) : list (R * R) :=
  map (fun k => dft_bin (length x) k 0 x) (seq 0 (length x)).

(** [scipy.fft.fft]: refuses an array without data points. *)
Definition fft (x : list R) : M (list (R * R)) :=
  match x with
  | [] => raise ValueError
  | _ => ret (dft x)
  end.

(** [np.abs] of a complex number. *)
Definition np_abs (z : R * R) : R := sqrt (fst z * fst z + snd z * snd z).

(** [np.max]: refuses an empty array. *)
Definition np_max (l : list R) : M R :=
  match l with
  | [] => raise ValueError
  | a :: t => ret (fold_left Rmax t a)
  end.

(** [detect_anomaly] *)
Definition detect_anomaly (signal : list R) (threshold : R) : M (bool * R) :=
  spectrum <- fft signal ;;
  let fft_values := map np_abs spectrum in
  max_amplitude <- np_max fft_values ;;
  emit OpScore ;;;
  if Rgt_dec max_amplitude threshold
  then ret (true, max_amplitude)
  else ret (false, max_amplitude).

Local Close Scope R_scope.

(** ** The plot of a waveform and its spectrum *)

Local Open Scope R_scope.

(** The state of [matplotlib.pyplot]: the curves drawn so far, each a list
    of points. *)
Definition Figure : Type := list (list (R * R)).

(** [a[i]]: [IndexError] beyond the end of the array. *)
Definition getitem {A} (a : list A) (i : nat) : M A :=
  match nth_error a i with
  | Some x => ret x
  | None => raise IndexError
  end.

(** [np.fft.fftfreq(n, d)]: the integers [0, ..., (n-1)//2] followed by
    [-(n//2), ..., -1], each multiplied by [1 / (n * d)]. *)
Definition fftfreq (n : nat) (d : R) : list R :=
  let val := 1 / (INR n * d) in
  let N := ((n - 1) / 2 + 1)%nat in
  let p1 := map INR (seq 0 N) in
  let p2 := map (fun j => - INR (n / 2 - j)) (seq 0 (n / 2)) in
  map (fun k => k * val) (p1 ++ p2).

(** [plt.plot(x, y)]: one more curve; [ValueError] when the two arrays
    differ in length. *)
Definition plt_plot (plt : Figure) (x y : list R) : M (pyval * Figure) :=
  if (length x =? length y)%nat
  then ret (PyNone, plt ++ [combine x y])
  else raise ValueError.

(** [plot_signal_and_spectrum]; titles, labels and layout are left out. *)
Definition plot_signal_and_spectrum (plt : Figure) (signal : list R)
  : M (pyval * Figure) :=
  let time_points := linspace 0 1 (length signal) in
  spectrum <- fft signal ;;
  let fft_values := map np_abs spectrum in
  t1 <- getitem time_points 1 ;;
  t0 <- getitem time_points 0 ;;
  let frequencies := fftfreq (length signal) (t1 - t0) in
  r <- plt_plot plt time_points signal ;;
  r <- plt_plot (snd r)
         (firstn (length frequencies / 2) frequencies)
         (firstn (length fft_values / 2) fft_values) ;;
  ret (PyNone, snd r).

Local Close Scope R_scope.

(** ** The jamming classifier *)

(** A fitted [RandomForestClassifier]: the number of features it was fitted
    on and its decision function on one row. *)
Record RandomForestClassifier : Type := mkForest {
  n_features_in_ : nat;
  decide : list R -> Z
}.

(** [clf.predict(X)]: scikit-learn checks every row against
    [n_features_in_] and raises [ValueError] on a mismatch. *)
Definition clf_predict (clf : RandomForestClassifier) (X : list (list R))
  : M (list Z) :=
  if forallb (fun row => (length row =? n_features_in_ clf)%nat) X
  then ret (map (decide clf) X)
  else raise ValueError.

(** [detect_jamming_pattern] *)
Definition detect_jamming_pattern (clf : RandomForestClassifier)
    (signal : list R) : M bool :=
  prediction <- clf_predict clf [signal] ;;
  emit OpClassify ;;;
  if (nth 0 prediction 0 =? 1)%Z then ret true else ret false.

(** ** Text and bytes *)

(** A Python [str] is a sequence of code points, a [bytes] a sequence of
    integers below 256. *)
Definition str : Type := list Z.
Definition bytes : Type := list Z.

Local Open Scope Z_scope.

Definition is_surrogate (c : Z) : bool := (0xD800 <=? c) && (c <=? 0xDFFF).

(** [str.encode()]: UTF-8, strict; a lone surrogate cannot be encoded. *)
Definition utf8_encode_char (c : Z) : option bytes :=
  if c <? 0 then None
  else if c <? 0x80 then Some [c]
  else if c <? 0x800 then Some [0xC0 + c / 64; 0x80 + c mod 64]
  else if c <? 0x10000 then
    if is_surrogate c then None
    else Some [0xE0 + c / 4096; 0x80 + (c / 64) mod 64; 0x80 + c mod 64]
  else if c <? 0x110000 then
    Some [0xF0 + c / 262144; 0x80 + (c / 4096) mod 64;
          0x80 + (c / 64) mod 64; 0x80 + c mod 64]
  else None.

Fixpoint utf8_encode (s : str) : option bytes :=
  match s with
  | [] => Some []
  | c :: t =>
      match utf8_encode_char c, utf8_encode t with
      | Some b, Some bt => Some (b ++ bt)
      | _, _ => None
      end
  end.

Definition is_cont (b : Z) : bool := (0x80 <=? b) && (b <=? 0xBF).

(** [bytes.decode()]: UTF-8, strict; overlong forms, surrogates, code points
    beyond U+10FFFF and truncated sequences are refused. *)
Fixpoint utf8_decode (bs : bytes) : option str :=
  match bs with
  | [] => Some []
  | b0 :: r0 =>
      if (0 <=? b0) && (b0 <? 0x80) then
        option_map (cons b0) (utf8_decode r0)
      else if (0xC2 <=? b0) && (b0 <=? 0xDF) then
        match r0 with
        | b1 :: r1 =>
            if is_cont b1
            then option_map (cons ((b0 - 0xC0) * 64 + (b1 - 0x80)))
                            (utf8_decode r1)
            else None
        | _ => None
        end
      else if (0xE0 <=? b0) && (b0 <=? 0xEF) then
        match r0 with
        | b1 :: b2 :: r2 =>
            let c := (b0 - 0xE0) * 4096 + (b1 - 0x80) * 64 + (b2 - 0x80) in
            if is_cont b1 && is_cont b2 && (0x800 <=? c)
               && negb (is_surrogate c)
            then option_map (cons c) (utf8_decode r2)
            else None
        | _ => None
        end
      else if (0xF0 <=? b0) && (b0 <=? 0xF4) then
        match r0 with
        | b1 :: b2 :: b3 :: r3 =>
            let c := (b0 - 0xF0) * 262144 + (b1 - 0x80) * 4096
                     + (b2 - 0x80) * 64 + (b3 - 0x80) in
            if is_cont b1 && is_cont b2 && is_cont b3
               && (0x10000 <=? c) && (c <=? 0x10FFFF)
            then option_map (cons c) (utf8_decode r3)
            else None
        | _ => None
        end
      else None
  end.

Local Close Scope Z_scope.

Definition lift_option {A} (e : exn) (o : option A) : M A :=
  match o with
  | Some a => ret a
  | None => raise e
  end.

Definition str_encode (s : str) : M bytes :=
  lift_option UnicodeEncodeError (utf8_encode s).

Definition bytes_decode (b : bytes) : M str :=
  lift_option UnicodeDecodeError (utf8_decode b).

(** The code points of a string literal of the script. *)
Definition literal (s : String.string) : str :=
  map (fun a => Z.of_N (Ascii.N_of_ascii a)) (String.list_ascii_of_string s).

(** ** The controller object *)

Record JamResistanceController (Key : Type) : Type := mkController {
  channel : CommunicationChannel;
  detector : RandomForestClassifier;
  encryption : Key
}.

Definition set_channel {Key} (self : JamResistanceController Key)
    (ch : CommunicationChannel) : JamResistanceController Key :=
  mkController ch (detector self) (encryption self).

(** * Notions the properties are stated with *)

(** ** Channels and draws *)

(** The channel a draw selects. *)
Definition pick (chs : list Z) (r : nat) : Z :=
  nth (r mod length chs) chs (hd 0%Z chs).

(** The redraw loop of [frequency_hopping]. *)
Definition hop_loop (chs : list Z) (cur : Z) (fuel : nat) (c : Z) : M Z :=
  while_ fuel (fun new_channel => (new_channel =? cur)%Z)
         (fun _ => random_choice chs) c.

Definition two_channels (ch : CommunicationChannel) : Prop :=
  exists a b, In a (channels ch) /\ In b (channels ch) /\ a <> b.

(** The conditional switch after each detector. *)
Definition switch_if (b : bool) (ch : CommunicationChannel)
  : M CommunicationChannel :=
  if b then r <- switch_channel ch ;; ret (snd r) else ret ch.

(** ** Verdicts *)

Local Open Scope R_scope.

(** The magnitude spectrum of a waveform, one magnitude per bin. *)
Definition magnitudes (signal : list R) : list R := map np_abs (dft signal).

Definition peak_amplitude (signal : list R) : R :=
  match magnitudes signal with
  | [] => 0
  | a :: t => fold_left Rmax t a
  end.

Definition is_anomalous (signal : list R) (threshold : R) : bool :=
  if Rgt_dec (peak_amplitude signal) threshold then true else false.

Definition total (x : list R) : R := fold_right Rplus 0 x.

Local Close Scope R_scope.

(** The verdict of the classifier on a waveform. *)
Definition is_jammed (clf : RandomForestClassifier) (signal : list R)
  : bool :=
  (decide clf signal =? 1)%Z.

(** ** Text *)

Local Open Scope Z_scope.

(** A code point that UTF-8 can carry: in range and not a surrogate. *)
Definition scalar_value (c : Z) : Prop :=
  0 <= c <= 0x10FFFF /\ is_surrogate c = false.

Local Close Scope Z_scope.

(** ** Traces *)

Definition b2n (b : bool) : nat := if b then 1%nat else 0%nat.

(** The events of one cycle: [an] and [jam] are the two verdicts, [c0] the
    channel at the start, [c1] to [c4] the channel after the scorer's
    switch, the classifier's switch, the hop and the recovery switch. *)
Definition cycle_trace (an jam : bool) (c0 c1 c2 c3 c4 : Z) : list Op :=
  [OpScore] ++ (if an then [OpSwitch c0 c1] else [])
  ++ [OpClassify] ++ (if jam then [OpSwitch c1 c2] else [])
  ++ [OpHop c2 c3; OpRecovery; OpSwitch c3 c4; OpEncrypt; OpDecrypt].

Definition finish_trace (c2 c3 c4 : Z) : list Op :=
  [OpHop c2 c3; OpRecovery; OpSwitch c3 c4; OpEncrypt; OpDecrypt].

Definition is_switch (e : Op) : bool :=
  match e with OpSwitch _ _ => true | _ => false end.

Definition is_hop (e : Op) : bool :=
  match e with OpHop _ _ => true | _ => false end.

(** An event that leaves the current channel different from what it was. *)
Definition changes_channel (e : Op) : bool :=
  match e with
  | OpSwitch old new | OpHop old new => negb (old =? new)%Z
  | _ => false
  end.

Definition count (p : Op -> bool) (t : list Op) : nat :=
  length (filter p t).

(** The events before the first hop. *)
Fixpoint before_hop (t : list Op) : list Op :=
  match t with
  | [] => []
  | e :: t' => if is_hop e then [] else e :: before_hop t'
  end.

(** The order the spec gives for a cycle: score, classify, at most one
    switch, hop, and the securing step right after the hop. *)
Definition claimed_order (t : list Op) : bool :=
  match t with
  | [OpScore; OpClassify; OpHop _ _; OpEncrypt; OpDecrypt] => true
  | [OpScore; OpClassify; OpSwitch _ _; OpHop _ _; OpEncrypt; OpDecrypt] =>
      true
  | _ => false
  end.

(** ** What the spec says where the script does otherwise *)

(** The waveform as the spec words it: the sine sampled on the half-open
    grid, plus the noise. *)
Definition claimed_signal (frequency noise_level : R) (normal : nat -> R)
  : list R :=
  vadd (map (fun t => sin (2 * PI * frequency * t)%R) (half_open_grid 500))
       (map (fun z => (noise_level * z)%R) (random_normal normal 500)).

(** A channel operation that returns the channel it selected. *)
Definition returns_new_channel
    (op : CommunicationChannel -> M (pyval * CommunicationChannel)) : Prop :=
  forall self w v self' w',
    op self w = Return ((v, self'), w') -> v = PyInt (current_channel self').

(** ** Sample data *)

(** A cipher that puts the key in front of the data as a tag and refuses a
    token whose tag is not its key; and a decryption that accepts every token
    and answers with a question mark. *)
Definition tag_encrypt (key : Z) (data : bytes) : bytes := key :: data.

Definition tag_decrypt (key : Z) (token : bytes) : option bytes :=
  match token with
  | t :: data => if (t =? key)%Z then Some data else None
  | [] => None
  end.


Definition five_channels : CommunicationChannel :=
  mkChannel [1; 2; 3; 4; 5]%Z 1.

Definition quiet_detector : RandomForestClassifier :=
  mkForest 500 (fun _ => 0%Z).

Definition alarmed_detector : RandomForestClassifier :=
  mkForest 500 (fun _ => 1%Z).

Definition quiet_controller : JamResistanceController Z :=
  mkController five_channels quiet_detector 7%Z.

Definition alarmed_controller : JamResistanceController Z :=
  mkController five_channels alarmed_detector 7%Z.

Definition silence : list R := repeat 0%R 500.

Definition loud : list R := repeat 1%R 500.

(** ** The parts that come from libraries, and the controller *)

Section WithLibraries.

(** The decision function scikit-learn fits to a training set. *)
Variable learn : list (list R) -> list Z -> list R -> Z.

(** Fernet: keys, and the two maps of a cipher suite built on a key.  A
    token also depends on the clock and on a fresh initialisation vector;
    a cycle encrypts once, so one choice of them is part of
    [Fernet_encrypt].  [None] is the [InvalidToken] exception. *)
Variable Key : Type.
Variable Fernet_encrypt : Key -> bytes -> bytes.
Variable Fernet_decrypt : Key -> bytes -> option bytes.

(** [clf.fit(X, y)]: [X] must be a non-empty rectangular array with one
    label per row; the width of [X] becomes [n_features_in_]. *)
Definition clf_fit (X : list (list R)) (y : list Z)
  : M RandomForestClassifier :=
  match X with
  | [] => raise ValueError
  | row :: rest =>
      if forallb (fun r => (length r =? length row)%nat) rest
         && negb (length row =? 0)%nat
         && (length X =? length y)%nat
      then ret (mkForest (length row) (learn X y))
      else raise ValueError
  end.

(** [train_jamming_detector]; [normal i] holds the normal draws of the
    [i]-th call to [generate_signal]. *)
Definition train_jamming_detector (normal : nat -> nat -> R)
  : M RandomForestClassifier :=
  let normal_signals :=
    map (fun i => generate_signal 50 (1 / 10) (normal i)) (seq 0 50) in
  let jammed_signals :=
    map (fun i => generate_signal 50 (3 / 2) (normal i)) (seq 50 50) in
  let X := normal_signals ++ jammed_signals in
  let y := repeat 0%Z 50 ++ repeat 1%Z 50 in
  clf_fit X y.

(** [setup_encryption]; the key [Fernet.generate_key()] produces is the
    argument. *)
Definition setup_encryption (key : Key) : M Key := ret key.

(** [encrypt_message] *)
Definition encrypt_message (cipher_suite : Key) (message : str) : M bytes :=
  data <- str_encode message ;;
  let encrypted_message := Fernet_encrypt cipher_suite data in
  emit OpEncrypt ;;;
  ret encrypted_message.

(** [decrypt_message] *)
Definition decrypt_message (cipher_suite : Key) (encrypted_message : bytes)
  : M str :=
  data <- lift_option InvalidToken
            (Fernet_decrypt cipher_suite encrypted_message) ;;
  decrypted_message <- bytes_decode data ;;
  emit OpDecrypt ;;;
  ret decrypted_message.

(** [JamResistanceController.__init__] *)
Definition JamResistanceController_init (normal : nat -> nat -> R)
    (key : Key) : M (JamResistanceController Key) :=
  ch <- CommunicationChannel_init ;;
  clf <- train_jamming_detector normal ;;
  cipher <- setup_encryption key ;;
  ret (mkController ch clf cipher).

Local Open Scope string_scope.
Definition confirmation : str := literal "Drone communication secured.".
Local Close Scope string_scope.

(** [JamResistanceController.monitor_and_respond] *)
Definition monitor_and_respond (self : JamResistanceController Key)
    (signal : list R) : M (R * JamResistanceController Key) :=
  verdict <- detect_anomaly signal 100 ;;
  let anomaly_detected := fst verdict in
  let max_amplitude := snd verdict in
  ch <- (if anomaly_detected
         then r <- switch_channel (channel self) ;; ret (snd r)
         else ret (channel self)) ;;
  jammed <- detect_jamming_pattern (detector self) signal ;;
  ch <- (if jammed
         then r <- switch_channel ch ;; ret (snd r)
         else ret ch) ;;
  r <- frequency_hopping ch ;;
  r <- recovery_strategy (snd r) ;;
  let message := confirmation in
  encrypted_message <- encrypt_message (encryption self) message ;;
  decrypt_message (encryption self) encrypted_message ;;;
  ret (max_amplitude, set_channel self (snd r)).

(** ** Notions that depend on the libraries *)

(** What [decrypt_message] makes of a token. *)
Definition decrypt_result (key : Key) (token : bytes) : outcome str :=
  match Fernet_decrypt key token with
  | None => Raise InvalidToken
  | Some data =>
      match utf8_decode data with
      | None => Raise UnicodeDecodeError
      | Some s => Return s
      end
  end.

(** The token of the confirmation message. *)
Definition confirmation_token (key : Key) : bytes :=
  Fernet_encrypt key confirmation.

(** The part of a cycle from the hop on. *)
Definition finish (self : JamResistanceController Key) (a : R)
    (ch : CommunicationChannel) : M (R * JamResistanceController Key) :=
  r <- frequency_hopping ch ;;
  r <- recovery_strategy (snd r) ;;
  encrypted_message <- encrypt_message (encryption self) confirmation ;;
  decrypt_message (encryption self) encrypted_message ;;;
  ret (a, set_channel self (snd r)).

(** The part of a cycle before the hop: the two detectors, each followed by
    the switch that answers it; its result is the peak amplitude and the
    channel object the hop is then invoked on. *)
Definition reach_hop (self : JamResistanceController Key) (signal : list R)
  : M (R * CommunicationChannel) :=
  verdict <- detect_anomaly signal 100 ;;
  ch <- switch_if (fst verdict) (channel self) ;;
  jammed <- detect_jamming_pattern (detector self) signal ;;
  ch <- switch_if jammed ch ;;
  ret (snd verdict, ch).

(** What a cycle needs before it may start: a waveform with data points,
    of the length the classifier was fitted on, and a channel set with two
    distinct members. *)
Definition ready (self : JamResistanceController Key) (signal : list R)
  : Prop :=
  signal <> [] /\
  length signal = n_features_in_ (detector self) /\
  two_channels (channel self).

(** Some run of a cycle that starts with trace [tr] gets to its end. *)
Definition finishes (self : JamResistanceController Key) (signal : list R)
    (tr : list Op) : Prop :=
  exists t a self' w',
    monitor_and_respond self signal (mkWorld t tr) = Return ((a, self'), w').

(** * Properties *)

(** ** Running the monad *)

Lemma bind_Return A B (m : M A) (k : A -> M B) w a w' :
  m w = Return (a, w') -> bind m k w = k a w'.
Proof. intros E. unfold bind. now rewrite E. Qed.

Lemma bind_inv A B (m : M A) (k : A -> M B) w b w2 :
  bind m k w = Return (b, w2) ->
  exists a w1, m w = Return (a, w1) /\ k a w1 = Return (b, w2).
Proof.
  unfold bind. destruct (m w) as [[a w1]| |]; try discriminate.
  intros E. now exists a, w1.
Qed.

Lemma ret_inv A (a b : A) w w' : ret a w = Return (b, w') -> a = b /\ w = w'.
Proof. unfold ret. intros E. now inversion E. Qed.

Lemma emit_inv e w u w' :
  emit e w = Return (u, w') -> w' = mkWorld (tape w) (trace w ++ [e]).
Proof. unfold emit. intros E. now inversion E. Qed.

(** ** Random choice and the channel operations *)

Lemma random_choice_inv A (l : list A) w a w' :
  random_choice l w = Return (a, w') ->
  In a l /\ trace w' = trace w /\
  exists r, tape w = r :: tape w' /\ a = nth (r mod length l) l (hd a l).
Proof.
  unfold random_choice. destruct l as [|d l0] eqn:El; [discriminate|].
  assert (Hl : l <> []) by (rewrite El; discriminate).
  rewrite <- El in *. clear El.
  destruct (tape w) as [|r t] eqn:Et; [discriminate|].
  intros E. injection E as Ea Ew. subst a w'. cbn [tape trace].
  assert (Hlt : (r mod length l < length l)%nat).
  { apply Nat.mod_upper_bound. now destruct l. }
  split; [|split; [reflexivity|]].
  - now apply nth_In.
  - exists r. split; [reflexivity|]. now apply nth_indep.
Qed.

Lemma random_choice_step A (l : list A) d r t tr :
  l <> [] ->
  random_choice l (mkWorld (r :: t) tr)
  = Return (nth (r mod length l) l d, mkWorld t tr).
Proof.
  intros Hl. unfold random_choice. destruct l as [|a l]; [congruence|].
  cbn [tape trace]. f_equal. f_equal. apply nth_indep.
  apply Nat.mod_upper_bound. discriminate.
Qed.

Lemma random_choice_channels chs r t tr :
  chs <> [] ->
  random_choice chs (mkWorld (r :: t) tr) = Return (pick chs r, mkWorld t tr).
Proof. intros H. unfold pick. now apply random_choice_step. Qed.

(** A channel set with two distinct members offers, whatever the current
    channel is, a draw that selects another one. *)
Lemma other_channel (chs : list Z) (cur : Z) :
  (exists a b, In a chs /\ In b chs /\ a <> b) ->
  exists r, pick chs r <> cur.
Proof.
  intros (a & b & Ha & Hb & Hab).
  assert (Hidx : forall c, In c chs -> exists r, pick chs r = c).
  { intros c Hc. destruct (In_nth chs c (hd 0%Z chs) Hc) as (i & Hi & Hn).
    exists i. unfold pick. now rewrite Nat.mod_small. }
  destruct (Z.eq_dec a cur) as [->|Hne].
  - destruct (Hidx b Hb) as (r & Hr). exists r. congruence.
  - destruct (Hidx a Ha) as (r & Hr). exists r. congruence.
Qed.

Lemma two_members (chs : list Z) :
  NoDup chs -> (2 <= length chs)%nat ->
  exists a b, In a chs /\ In b chs /\ a <> b.
Proof.
  intros Hnd Hlen. destruct chs as [|a [|b l]]; cbn in Hlen; try lia.
  exists a, b. repeat split; cbn; auto.
  inversion Hnd; subst. intros ->. apply H1. now left.
Qed.

Lemma available_nonempty (chs : list Z) (cur : Z) :
  (exists c, In c chs /\ c <> cur) ->
  filter (fun ch => negb (ch =? cur)%Z) chs <> [].
Proof.
  intros (c & Hc & Hne) E.
  assert (H : In c (filter (fun ch => negb (ch =? cur)%Z) chs)).
  { apply filter_In. split; [assumption|].
    apply negb_true_iff. now apply Z.eqb_neq. }
  rewrite E in H. contradiction.
Qed.

Lemma switch_channel_inv self w v self' w' :
  switch_channel self w = Return ((v, self'), w') ->
  v = PyNone /\
  channels self' = channels self /\
  In (current_channel self') (channels self) /\
  current_channel self' <> current_channel self /\
  trace w' = trace w
             ++ [OpSwitch (current_channel self) (current_channel self')] /\
  exists r, tape w = r :: tape w'.
Proof.
  unfold switch_channel. intros E.
  apply bind_inv in E. destruct E as (c & w1 & Hc & E).
  apply bind_inv in E. destruct E as (u & w2 & He & E).
  apply ret_inv in E. destruct E as [E ->]. inversion E; subst; clear E.
  apply emit_inv in He. subst w'.
  apply random_choice_inv in Hc. destruct Hc as (Hin & Htr & r & Ht & _).
  apply filter_In in Hin. destruct Hin as [Hin Hneq].
  apply negb_true_iff, Z.eqb_neq in Hneq.
  cbn [channels current_channel set_current tape trace].
  rewrite Htr. repeat split; auto. now exists r.
Qed.

Lemma switch_channel_total self r t tr :
  (exists c, In c (channels self) /\ c <> current_channel self) ->
  exists c,
    switch_channel self (mkWorld (r :: t) tr)
    = Return ((PyNone, set_current self c),
              mkWorld t (tr ++ [OpSwitch (current_channel self) c])).
Proof.
  intros H. apply available_nonempty in H.
  unfold switch_channel.
  set (av := filter _ _) in *.
  exists (nth (r mod length av) av 0%Z).
  erewrite bind_Return by (apply random_choice_step with (d := 0%Z); exact H).
  reflexivity.
Qed.

Lemma hop_loop_inv chs cur fuel :
  forall c w c' w',
    hop_loop chs cur fuel c w = Return (c', w') ->
    c' <> cur /\ (c' = c \/ In c' chs) /\ trace w' = trace w /\
    (length (tape w') <= length (tape w))%nat.
Proof.
  unfold hop_loop.
  induction fuel as [|n IH]; intros c w c' w'; cbn [while_];
    destruct (Z.eqb_spec c cur) as [Heq|Hne].
  - discriminate.
  - intros E. apply ret_inv in E. destruct E as [-> ->]. auto.
  - intros E. apply bind_inv in E. destruct E as (c1 & w1 & Hc & E).
    apply random_choice_inv in Hc. destruct Hc as (Hin & Htr & r & Ht & _).
    apply IH in E. destruct E as (Hne & Hor & Htr' & Hlen).
    split; [assumption|]. split; [|split].
    + destruct Hor as [->|]; auto.
    + congruence.
    + rewrite Ht. cbn [length]. lia.
  - intros E. apply ret_inv in E. destruct E as [-> ->]. auto.
Qed.

Lemma hop_loop_total chs cur :
  chs <> [] ->
  forall t fuel c tr,
    (length t <= fuel)%nat ->
    c <> cur \/ (exists r, In r t /\ pick chs r <> cur) ->
    exists c' t',
      hop_loop chs cur fuel c (mkWorld t tr) = Return (c', mkWorld t' tr).
Proof.
  intros Hchs. unfold hop_loop.
  induction t as [|r t IH]; intros fuel c tr Hfuel Hgood.
  - destruct Hgood as [Hne|(r & [] & _)].
    exists c, []. destruct fuel; cbn [while_];
      destruct (Z.eqb_spec c cur); try contradiction; reflexivity.
  - destruct (Z.eqb_spec c cur) as [Heq|Hne].
    + destruct fuel as [|n]; [cbn in Hfuel; lia|].
      cbn [while_]. destruct (Z.eqb_spec c cur); [|contradiction].
      erewrite bind_Return by (now apply random_choice_channels).
      apply IH; [cbn in Hfuel; lia|].
      destruct Hgood as [Hne|(r' & [<-|Hin] & Hr')]; [contradiction| |].
      * now left.
      * right. now exists r'.
    + exists c, (r :: t). destruct fuel; cbn [while_];
        destruct (Z.eqb_spec c cur); try contradiction; reflexivity.
Qed.

Lemma frequency_hopping_inv self w v self' w' :
  frequency_hopping self w = Return ((v, self'), w') ->
  v = PyNone /\
  channels self' = channels self /\
  In (current_channel self') (channels self) /\
  current_channel self' <> current_channel self /\
  trace w' = trace w
             ++ [OpHop (current_channel self) (current_channel self')] /\
  (length (tape w') < length (tape w))%nat.
Proof.
  unfold frequency_hopping, while_tape. intros E.
  apply bind_inv in E. destruct E as (c0 & w0 & Hc0 & E).
  apply bind_inv in E. destruct E as (c1 & w1 & Hloop & E).
  apply bind_inv in E. destruct E as (u & w2 & He & E).
  apply ret_inv in E. destruct E as [E ->]. injection E as <- <-.
  apply emit_inv in He. subst w'.
  apply random_choice_inv in Hc0. destruct Hc0 as (Hin0 & Htr0 & r & Ht0 & _).
  apply (hop_loop_inv (channels self) (current_channel self)) in Hloop.
  destruct Hloop as (Hne & Hor & Htr1 & Hlen).
  cbn [channels current_channel set_current tape trace].
  repeat split; auto.
  - destruct Hor as [->|]; assumption.
  - congruence.
  - rewrite Ht0. cbn [length]. lia.
Qed.

Lemma frequency_hopping_total self t tr :
  channels self <> [] ->
  (exists r, In r t /\ pick (channels self) r <> current_channel self) ->
  exists c t',
    frequency_hopping self (mkWorld t tr)
    = Return ((PyNone, set_current self c),
              mkWorld t' (tr ++ [OpHop (current_channel self) c])).
Proof.
  intros Hchs (r & Hin & Hr).
  destruct t as [|r0 t0]; [contradiction|].
  unfold frequency_hopping.
  erewrite bind_Return by (now apply random_choice_channels).
  destruct (hop_loop_total (cur := current_channel self) Hchs t0
              (fuel := length t0) (c := pick (channels self) r0) tr
              (le_n _)) as (c & t' & Hloop).
  { destruct Hin as [<-|Hin]; [now left|]. right. now exists r. }
  exists c, t'.
  erewrite bind_Return by (unfold while_tape; exact Hloop).
  reflexivity.
Qed.

(** ** The scorer *)

Local Open Scope R_scope.

Lemma magnitudes_length signal : length (magnitudes signal) = length signal.
Proof. unfold magnitudes, dft. now rewrite !length_map, length_seq. Qed.

Lemma fold_Rmax_ge_init t : forall a, a <= fold_left Rmax t a.
Proof.
  induction t as [|b t IH]; intros a; cbn [fold_left]; [lra|].
  eapply Rle_trans; [apply (Rmax_l a b)|apply IH].
Qed.

Lemma fold_Rmax_ge t : forall a m, In m t -> m <= fold_left Rmax t a.
Proof.
  induction t as [|b t IH]; intros a m Hin; [contradiction|].
  cbn [fold_left]. destruct Hin as [->|Hin].
  - eapply Rle_trans; [apply (Rmax_r a m)|apply fold_Rmax_ge_init].
  - now apply IH.
Qed.

Lemma fold_Rmax_in t : forall a, In (fold_left Rmax t a) (a :: t).
Proof.
  induction t as [|b t IH]; intros a; cbn [fold_left]; [now left|].
  destruct (IH (Rmax a b)) as [E|Hin].
  - rewrite <- E. unfold Rmax. destruct (Rle_dec a b).
    + right. now left.
    + now left.
  - right. now right.
Qed.

Lemma np_abs_nonneg z : 0 <= np_abs z.
Proof. apply sqrt_pos. Qed.

Lemma peak_amplitude_in signal :
  signal <> [] -> In (peak_amplitude signal) (magnitudes signal).
Proof.
  intros Hs. unfold peak_amplitude.
  destruct (magnitudes signal) as [|a t] eqn:E.
  - apply (f_equal (@length R)) in E. rewrite magnitudes_length in E.
    destruct signal; [congruence|discriminate].
  - apply fold_Rmax_in.
Qed.

Lemma peak_amplitude_ge signal m :
  In m (magnitudes signal) -> m <= peak_amplitude signal.
Proof.
  unfold peak_amplitude.
  destruct (magnitudes signal) as [|a t]; [contradiction|].
  intros [<-|Hin]; [apply fold_Rmax_ge_init|now apply fold_Rmax_ge].
Qed.

Lemma peak_amplitude_nonneg signal : 0 <= peak_amplitude signal.
Proof.
  destruct signal as [|a t] eqn:E.
  - unfold peak_amplitude, magnitudes, dft. cbn. lra.
  - assert (H : In (peak_amplitude (a :: t)) (magnitudes (a :: t)))
      by (apply peak_amplitude_in; discriminate).
    unfold magnitudes in H. apply in_map_iff in H.
    destruct H as (z & <- & _). apply np_abs_nonneg.
Qed.

Lemma is_anomalous_iff signal threshold :
  is_anomalous signal threshold = true <-> peak_amplitude signal > threshold.
Proof.
  unfold is_anomalous. destruct (Rgt_dec _ _); split; auto; discriminate.
Qed.

Lemma detect_anomaly_run signal threshold w :
  signal <> [] ->
  detect_anomaly signal threshold w
  = Return ((is_anomalous signal threshold, peak_amplitude signal),
            mkWorld (tape w) (trace w ++ [OpScore])).
Proof.
  intros Hs. unfold detect_anomaly, fft.
  destruct signal as [|a t] eqn:E; [congruence|]. rewrite <- E in *.
  assert (Hm : magnitudes signal <> []).
  { intros Em. apply (f_equal (@length R)) in Em.
    rewrite magnitudes_length, E in Em. discriminate. }
  unfold is_anomalous, peak_amplitude. fold (magnitudes signal).
  unfold bind, ret, np_max, emit. fold (magnitudes signal).
  destruct (magnitudes signal) as [|m ms]; [congruence|].
  unfold ret. cbn [tape trace]. now destruct (Rgt_dec _ _).
Qed.

Lemma detect_anomaly_empty threshold w :
  detect_anomaly [] threshold w = Raise ValueError.
Proof. reflexivity. Qed.

Local Close Scope R_scope.

(** ** Two waveforms with a known verdict *)

Local Open Scope R_scope.

Lemma dft_bin_silence N k m : forall n, dft_bin N k n (repeat 0 m) = (0, 0).
Proof.
  induction m as [|m IH]; intros n; cbn [repeat dft_bin]; [reflexivity|].
  rewrite IH. cbn [fst snd]. apply f_equal2; ring.
Qed.

Lemma np_abs_origin : np_abs (0, 0) = 0.
Proof.
  unfold np_abs. cbn [fst snd].
  replace (0 * 0 + 0 * 0) with 0 by ring. apply sqrt_0.
Qed.

Lemma peak_amplitude_silence m : peak_amplitude (repeat 0 (S m)) = 0.
Proof.
  assert (Hin : In (peak_amplitude (repeat 0 (S m)))
                   (magnitudes (repeat 0 (S m))))
    by (apply peak_amplitude_in; discriminate).
  unfold magnitudes, dft in Hin.
  apply in_map_iff in Hin. destruct Hin as (z & Hz & Hin).
  apply in_map_iff in Hin. destruct Hin as (k & Hk & _).
  rewrite dft_bin_silence in Hk. subst z. now rewrite np_abs_origin in Hz.
Qed.

Lemma is_anomalous_silence m : is_anomalous (repeat 0 (S m)) 100 = false.
Proof.
  unfold is_anomalous. rewrite peak_amplitude_silence.
  destruct (Rgt_dec 0 100); [lra|reflexivity].
Qed.

Lemma dft_bin_dc N x : forall n, dft_bin N 0 n x = (total x, 0).
Proof.
  induction x as [|a t IH]; intros n; cbn [dft_bin total fold_right];
    [reflexivity|].
  rewrite IH. cbn [fst snd INR].
  replace (2 * PI * 0 * INR n / INR N) with 0 by (unfold Rdiv; ring).
  rewrite cos_0, sin_0. unfold total. apply f_equal2; ring.
Qed.

Lemma peak_amplitude_ge_total x :
  x <> [] -> 0 <= total x -> total x <= peak_amplitude x.
Proof.
  intros Hx Hpos. apply peak_amplitude_ge.
  unfold magnitudes, dft. destruct x as [|a t] eqn:E; [congruence|].
  rewrite <- E. replace (length x) with (S (length t)) by (now rewrite E).
  rewrite <- cons_seq. cbn [map]. left.
  rewrite dft_bin_dc. unfold np_abs. cbn [fst snd].
  replace (total x * total x + 0 * 0) with (Rsqr (total x))
    by (unfold Rsqr; ring).
  apply sqrt_Rsqr. now rewrite E.
Qed.

Lemma total_repeat v m : total (repeat v m) = INR m * v.
Proof.
  induction m as [|m IH]; [cbn; ring|].
  cbn [repeat total fold_right]. fold (total (repeat v m)).
  rewrite IH, S_INR. ring.
Qed.

Lemma is_anomalous_loud : is_anomalous (repeat 1 500) 100 = true.
Proof.
  apply is_anomalous_iff.
  assert (E : total (repeat 1 500) = 500).
  { rewrite total_repeat, INR_IZR_INZ.
    change (Z.of_nat 500) with 500%Z. ring. }
  assert (H : total (repeat 1 500) <= peak_amplitude (repeat 1 500)).
  { apply peak_amplitude_ge_total; [discriminate|]. rewrite E. lra. }
  rewrite E in H. lra.
Qed.

(** ** The signal source *)

Lemma nth_map_in A B (f : A -> B) l i d d' :
  (i < length l)%nat -> nth i (map f l) d = f (nth i l d').
Proof.
  intros Hi. rewrite nth_indep with (d' := f d')
    by (now rewrite length_map).
  apply map_nth.
Qed.

Lemma linspace_length a b num : length (linspace a b num) = num.
Proof.
  unfold linspace. destruct (Nat.ltb_spec 1 num).
  - rewrite length_app, length_firstn, length_map, length_seq. cbn. lia.
  - now rewrite length_map, length_seq.
Qed.

Lemma linspace_nth a b num i d :
  (2 <= num)%nat -> (i < num)%nat ->
  nth i (linspace a b num) d = a + INR i * ((b - a) / INR (num - 1)).
Proof.
  intros Hnum Hi. unfold linspace.
  destruct (Nat.ltb_spec 1 num) as [_|]; [|lia].
  assert (Hne : INR (num - 1) <> 0) by (apply not_0_INR; lia).
  destruct (Nat.eq_dec i (num - 1)) as [->|Hlast].
  - rewrite app_nth2; rewrite length_firstn, length_map, length_seq;
      [|lia].
    replace (num - 1 - Nat.min (num - 1) num)%nat with 0%nat by lia.
    cbn [nth]. field. assumption.
  - rewrite app_nth1
      by (rewrite length_firstn, length_map, length_seq; lia).
    rewrite nth_firstn. destruct (Nat.ltb_spec i (num - 1)); [|lia].
    rewrite nth_map_in with (d' := 0%nat) by (rewrite length_seq; lia).
    rewrite seq_nth by lia. cbn [Nat.add]. ring.
Qed.

Lemma vadd_length a b : length a = length b -> length (vadd a b) = length a.
Proof.
  intros H. unfold vadd. rewrite length_map, length_combine. lia.
Qed.

Lemma vadd_nth a b i :
  length a = length b -> (i < length a)%nat ->
  nth i (vadd a b) 0 = nth i a 0 + nth i b 0.
Proof.
  intros Hl Hi. unfold vadd.
  rewrite nth_map_in with (d' := (0, 0))
    by (rewrite length_combine; lia).
  now rewrite combine_nth.
Qed.

Lemma generate_signal_length frequency noise_level normal :
  length (generate_signal frequency noise_level normal) = 500%nat.
Proof.
  unfold generate_signal, random_normal.
  rewrite vadd_length; rewrite !length_map, ?length_seq, linspace_length;
    reflexivity.
Qed.

Lemma generate_signal_nth frequency noise_level normal i :
  (i < 500)%nat ->
  nth i (generate_signal frequency noise_level normal) 0
  = sin (2 * PI * frequency * (INR i / 499)) + noise_level * normal i.
Proof.
  intros Hi. unfold generate_signal, random_normal.
  rewrite vadd_nth;
    [|rewrite !length_map, ?length_seq, linspace_length; reflexivity
     |rewrite length_map, linspace_length; assumption].
  rewrite linspace_length. f_equal.
  - rewrite nth_map_in with (d' := 0) by (now rewrite linspace_length).
    rewrite linspace_nth by lia.
    replace (INR (500 - 1)) with 499
      by (rewrite INR_IZR_INZ; change (Z.of_nat (500 - 1)) with 499%Z;
          reflexivity).
    f_equal. field.
  - rewrite nth_map_in with (d' := 0)
      by (now rewrite length_map, length_seq).
    f_equal.
    rewrite nth_map_in with (d' := 0%nat) by (now rewrite length_seq).
    now rewrite seq_nth.
Qed.

Local Close Scope R_scope.

(** ** Text and bytes *)

Local Open Scope Z_scope.

(** The six-bit digits of a code point. *)
Lemma sextets c :
  0 <= c ->
  exists d3 d2 d1 d0,
    c / 262144 = d3 /\ (c / 4096) mod 64 = d2 /\ (c / 64) mod 64 = d1 /\
    c mod 64 = d0 /\ c / 4096 = 64 * d3 + d2 /\
    c / 64 = 4096 * d3 + 64 * d2 + d1 /\
    c = 262144 * d3 + 4096 * d2 + 64 * d1 + d0 /\
    0 <= d3 /\ 0 <= d2 < 64 /\ 0 <= d1 < 64 /\ 0 <= d0 < 64.
Proof.
  intros Hc.
  exists (c / 262144), ((c / 4096) mod 64), ((c / 64) mod 64), (c mod 64).
  repeat split; try reflexivity; Z.to_euclidean_division_equations; lia.
Qed.

Ltac decide_tests :=
  repeat match goal with
         | |- context [(?a <=? ?b)%Z] =>
             first [ rewrite (proj2 (Z.leb_le a b)) by lia
                   | rewrite (proj2 (Z.leb_gt a b)) by lia ]
         | |- context [(?a <? ?b)%Z] =>
             first [ rewrite (proj2 (Z.ltb_lt a b)) by lia
                   | rewrite (proj2 (Z.ltb_ge a b)) by lia ]
         end.

Lemma utf8_decode_cons b0 r0 :
  utf8_decode (b0 :: r0)
  = if (0 <=? b0) && (b0 <? 0x80) then
      option_map (cons b0) (utf8_decode r0)
    else if (0xC2 <=? b0) && (b0 <=? 0xDF) then
      match r0 with
      | b1 :: r1 =>
          if is_cont b1
          then option_map (cons ((b0 - 0xC0) * 64 + (b1 - 0x80)))
                          (utf8_decode r1)
          else None
      | _ => None
      end
    else if (0xE0 <=? b0) && (b0 <=? 0xEF) then
      match r0 with
      | b1 :: b2 :: r2 =>
          let c := (b0 - 0xE0) * 4096 + (b1 - 0x80) * 64 + (b2 - 0x80) in
          if is_cont b1 && is_cont b2 && (0x800 <=? c)
             && negb (is_surrogate c)
          then option_map (cons c) (utf8_decode r2)
          else None
      | _ => None
      end
    else if (0xF0 <=? b0) && (b0 <=? 0xF4) then
      match r0 with
      | b1 :: b2 :: b3 :: r3 =>
          let c := (b0 - 0xF0) * 262144 + (b1 - 0x80) * 4096
                   + (b2 - 0x80) * 64 + (b3 - 0x80) in
          if is_cont b1 && is_cont b2 && is_cont b3
             && (0x10000 <=? c) && (c <=? 0x10FFFF)
          then option_map (cons c) (utf8_decode r3)
          else None
      | _ => None
      end
    else None.
Proof. reflexivity. Qed.

Lemma utf8_decode_1 b rest :
  0 <= b < 0x80 ->
  utf8_decode (b :: rest) = option_map (cons b) (utf8_decode rest).
Proof. intros H. rewrite utf8_decode_cons. decide_tests. reflexivity. Qed.

Lemma utf8_decode_2 b0 b1 rest :
  0xC2 <= b0 <= 0xDF -> 0x80 <= b1 <= 0xBF ->
  utf8_decode (b0 :: b1 :: rest)
  = option_map (cons ((b0 - 0xC0) * 64 + (b1 - 0x80))) (utf8_decode rest).
Proof.
  intros H0 H1. rewrite utf8_decode_cons. unfold is_cont.
  decide_tests. reflexivity.
Qed.

Lemma utf8_decode_3 b0 b1 b2 rest :
  let c := (b0 - 0xE0) * 4096 + (b1 - 0x80) * 64 + (b2 - 0x80) in
  0xE0 <= b0 <= 0xEF -> 0x80 <= b1 <= 0xBF -> 0x80 <= b2 <= 0xBF ->
  0x800 <= c -> is_surrogate c = false ->
  utf8_decode (b0 :: b1 :: b2 :: rest) = option_map (cons c) (utf8_decode rest).
Proof.
  intros c H0 H1 H2 Hc Hs. rewrite utf8_decode_cons. cbv zeta. fold c.
  rewrite Hs. unfold is_cont. decide_tests. reflexivity.
Qed.

Lemma utf8_decode_4 b0 b1 b2 b3 rest :
  let c := (b0 - 0xF0) * 262144 + (b1 - 0x80) * 4096
           + (b2 - 0x80) * 64 + (b3 - 0x80) in
  0xF0 <= b0 <= 0xF4 -> 0x80 <= b1 <= 0xBF -> 0x80 <= b2 <= 0xBF ->
  0x80 <= b3 <= 0xBF -> 0x10000 <= c <= 0x10FFFF ->
  utf8_decode (b0 :: b1 :: b2 :: b3 :: rest)
  = option_map (cons c) (utf8_decode rest).
Proof.
  intros c H0 H1 H2 H3 Hc. rewrite utf8_decode_cons. cbv zeta. fold c.
  unfold is_cont. decide_tests. reflexivity.
Qed.

Ltac expose_bytes E rest :=
  apply (f_equal (fun o => match o with
                           | Some l => l ++ rest
                           | None => []
                           end)) in E;
  cbv beta iota in E; rewrite <- E.

Lemma utf8_decode_char c rest bs :
  utf8_encode_char c = Some bs ->
  utf8_decode (bs ++ rest) = option_map (cons c) (utf8_decode rest).
Proof.
  unfold utf8_encode_char.
  destruct (Z.ltb_spec c 0); [discriminate|].
  destruct (@sextets c) as
    (d3 & d2 & d1 & d0 & E3 & E2 & E1 & E0 & E12 & E6 & Ec & H3 & H2 & H1 & H0);
    [lia|].
  rewrite E3, E2, E1, E0, E12, E6.
  destruct (Z.ltb_spec c 0x80).
  { intros E. expose_bytes E rest. change ([c] ++ rest) with (c :: rest).
    apply utf8_decode_1. lia. }
  destruct (Z.ltb_spec c 0x800).
  { intros E. expose_bytes E rest.
    change ([?a; ?b] ++ rest) with (a :: b :: rest).
    rewrite utf8_decode_2 by lia. do 2 f_equal. lia. }
  destruct (Z.ltb_spec c 0x10000).
  { destruct (is_surrogate c) eqn:Hs; [discriminate|].
    intros E. expose_bytes E rest.
    change ([?a; ?b; ?d] ++ rest) with (a :: b :: d :: rest).
    assert (Ec' : (0xE0 + (64 * d3 + d2) - 0xE0) * 4096
                  + (0x80 + d1 - 0x80) * 64 + (0x80 + d0 - 0x80) = c) by lia.
    rewrite utf8_decode_3; rewrite ?Ec'; try lia; [reflexivity|assumption]. }
  destruct (Z.ltb_spec c 0x110000); [|discriminate].
  intros E. expose_bytes E rest.
  change ([?a; ?b; ?d; ?e] ++ rest) with (a :: b :: d :: e :: rest).
  assert (Ec' : (0xF0 + d3 - 0xF0) * 262144 + (0x80 + d2 - 0x80) * 4096
                + (0x80 + d1 - 0x80) * 64 + (0x80 + d0 - 0x80) = c) by lia.
  rewrite utf8_decode_4; rewrite ?Ec'; try lia. reflexivity.
Qed.

Lemma utf8_roundtrip s : forall bs,
  utf8_encode s = Some bs -> utf8_decode bs = Some s.
Proof.
  induction s as [|c t IH]; intros bs; cbn [utf8_encode].
  - intros E. now injection E as <-.
  - destruct (utf8_encode_char c) as [b|] eqn:Ec; [|discriminate].
    destruct (utf8_encode t) as [bt|] eqn:Et; [|discriminate].
    intros E. injection E as <-.
    rewrite (@utf8_decode_char c bt b Ec), (IH bt eq_refl). reflexivity.
Qed.

Lemma utf8_encode_char_defined c :
  scalar_value c -> exists bs, utf8_encode_char c = Some bs.
Proof.
  intros [Hr Hs]. unfold utf8_encode_char. rewrite Hs.
  destruct (Z.ltb_spec c 0); [lia|].
  destruct (Z.ltb_spec c 0x80); [eauto|].
  destruct (Z.ltb_spec c 0x800); [eauto|].
  destruct (Z.ltb_spec c 0x10000); [eauto|].
  destruct (Z.ltb_spec c 0x110000); [eauto|lia].
Qed.

Lemma utf8_encode_defined s :
  Forall scalar_value s -> exists bs, utf8_encode s = Some bs.
Proof.
  induction 1 as [|c t Hc _ (bt & Et)]; cbn [utf8_encode]; [eauto|].
  destruct (@utf8_encode_char_defined c Hc) as (b & Ec).
  rewrite Ec, Et. eauto.
Qed.

Local Close Scope Z_scope.

(** ** Forward runs of the channel operations *)

Lemma bind_Starved A B (m : M A) (k : A -> M B) w :
  m w = Starved -> bind m k w = Starved.
Proof. intros E. unfold bind. now rewrite E. Qed.

Lemma bind_Raise A B (m : M A) (k : A -> M B) w e :
  m w = Raise e -> bind m k w = Raise e.
Proof. intros E. unfold bind. now rewrite E. Qed.

Lemma switch_channel_cases self t tr :
  (exists c, In c (channels self) /\ c <> current_channel self) ->
  (t = [] /\ switch_channel self (mkWorld t tr) = Starved) \/
  exists r t' c,
    t = r :: t' /\ In c (channels self) /\ c <> current_channel self /\
    switch_channel self (mkWorld t tr)
    = Return ((PyNone, set_current self c),
              mkWorld t' (tr ++ [OpSwitch (current_channel self) c])).
Proof.
  intros Hother. destruct t as [|r t'].
  - left. split; [reflexivity|].
    apply available_nonempty in Hother. unfold switch_channel.
    apply bind_Starved. unfold random_choice.
    now destruct (filter _ _).
  - right. destruct (switch_channel_total self r t' tr Hother) as (c & Hrun).
    exists r, t', c. split; [reflexivity|].
    destruct (switch_channel_inv _ _ Hrun) as (_ & _ & Hin & Hne & _).
    cbn [set_current current_channel] in Hin, Hne. auto.
Qed.

Lemma hop_loop_cases chs cur :
  chs <> [] ->
  forall fuel c t tr,
    hop_loop chs cur fuel c (mkWorld t tr) = Starved \/
    exists c' t',
      hop_loop chs cur fuel c (mkWorld t tr) = Return (c', mkWorld t' tr).
Proof.
  intros Hchs. unfold hop_loop.
  induction fuel as [|n IH]; intros c t tr; cbn [while_];
    destruct (Z.eqb_spec c cur) as [Heq|Hne].
  - now left.
  - right. now exists c, t.
  - destruct t as [|r t'].
    + left. apply bind_Starved. unfold random_choice. now destruct chs.
    + erewrite bind_Return by (now apply random_choice_channels).
      apply IH.
  - right. now exists c, t.
Qed.

Lemma frequency_hopping_cases self t tr :
  channels self <> [] ->
  frequency_hopping self (mkWorld t tr) = Starved \/
  exists c t',
    In c (channels self) /\ c <> current_channel self /\
    frequency_hopping self (mkWorld t tr)
    = Return ((PyNone, set_current self c),
              mkWorld t' (tr ++ [OpHop (current_channel self) c])).
Proof.
  intros Hchs. destruct t as [|r t0].
  - left. unfold frequency_hopping. apply bind_Starved.
    unfold random_choice. now destruct (channels self).
  - destruct (hop_loop_cases (current_channel self) Hchs
                (length t0) (pick (channels self) r) t0 tr)
      as [Hst|(c & t' & Hloop)].
    + left. unfold frequency_hopping.
      erewrite bind_Return by (now apply random_choice_channels).
      apply bind_Starved. exact Hst.
    + right. exists c, t'.
      assert (Hrun :
                frequency_hopping self (mkWorld (r :: t0) tr)
                = Return ((PyNone, set_current self c),
                          mkWorld t' (tr ++ [OpHop (current_channel self) c]))).
      { unfold frequency_hopping.
        erewrite bind_Return by (now apply random_choice_channels).
        erewrite bind_Return by (unfold while_tape; exact Hloop).
        reflexivity. }
      destruct (frequency_hopping_inv _ _ Hrun) as (_ & _ & Hin & Hne & _).
      cbn [set_current current_channel] in Hin, Hne. auto.
Qed.

(** A first draw that selects another channel ends the hop at once. *)
Lemma frequency_hopping_first self r :
  channels self <> [] ->
  pick (channels self) r <> current_channel self ->
  forall t tr,
    frequency_hopping self (mkWorld (r :: t) tr)
    = Return ((PyNone, set_current self (pick (channels self) r)),
              mkWorld t (tr ++ [OpHop (current_channel self)
                                      (pick (channels self) r)])).
Proof.
  intros Hchs Hr t tr. unfold frequency_hopping.
  erewrite bind_Return by (now apply random_choice_channels).
  unfold while_tape. cbn [tape].
  assert (Hloop : forall fuel w,
             while_ fuel
               (fun new_channel => (new_channel =? current_channel self)%Z)
               (fun _ => random_choice (channels self))
               (pick (channels self) r) w
             = Return (pick (channels self) r, w)).
  { intros fuel w. destruct fuel; cbn [while_];
      destruct (Z.eqb_spec (pick (channels self) r) (current_channel self));
      try contradiction; reflexivity. }
  erewrite bind_Return by (apply Hloop). reflexivity.
Qed.

(** ** The conditional switch *)

Lemma two_channels_other ch :
  two_channels ch ->
  exists c, In c (channels ch) /\ c <> current_channel ch.
Proof.
  intros (a & b & Ha & Hb & Hab).
  destruct (Z.eq_dec a (current_channel ch)) as [E|E].
  - exists b. split; [assumption|congruence].
  - now exists a.
Qed.

Lemma two_channels_nonempty ch : two_channels ch -> channels ch <> [].
Proof. intros (a & _ & Ha & _) E. rewrite E in Ha. contradiction. Qed.

Lemma two_channels_set_current ch c :
  two_channels ch -> two_channels (set_current ch c).
Proof. intros H. exact H. Qed.

Lemma set_current_same ch : set_current ch (current_channel ch) = ch.
Proof. now destruct ch. Qed.

Lemma switch_if_cases b ch t tr :
  two_channels ch ->
  switch_if b ch (mkWorld t tr) = Starved \/
  exists c t',
    (if b then c <> current_channel ch else c = current_channel ch) /\
    In c (current_channel ch :: channels ch) /\
    (length t' <= length t)%nat /\
    switch_if b ch (mkWorld t tr)
    = Return (set_current ch c,
              mkWorld t' (tr ++ if b then [OpSwitch (current_channel ch) c]
                                else [])).
Proof.
  intros Htwo. destruct b; unfold switch_if.
  - destruct (switch_channel_cases ch t tr (two_channels_other Htwo))
      as [[-> Hst]|(r & t' & c & -> & Hin & Hne & Hrun)].
    + left. now apply bind_Starved.
    + right. exists c, t'. repeat split; auto.
      * now right.
      * cbn [length]. lia.
      * erewrite bind_Return by exact Hrun. reflexivity.
  - right. exists (current_channel ch), t. repeat split; auto.
    + now left.
    + now rewrite set_current_same, app_nil_r.
Qed.

Lemma switch_if_total b ch :
  two_channels ch ->
  exists t0 c,
    forall t tr,
      switch_if b ch (mkWorld (t0 ++ t) tr)
      = Return (set_current ch c,
                mkWorld t (tr ++ if b then [OpSwitch (current_channel ch) c]
                                 else [])).
Proof.
  intros Htwo. destruct b; unfold switch_if.
  - pose proof (@available_nonempty _ _ (two_channels_other Htwo)) as Hav.
    set (av := filter _ _) in Hav.
    exists [0%nat], (nth (0 mod length av) av 0%Z). intros t tr.
    unfold switch_channel. fold av. cbn [app].
    erewrite bind_Return.
    2:{ erewrite bind_Return
          by (apply random_choice_step with (d := 0%Z); exact Hav).
        reflexivity. }
    reflexivity.
  - exists [], (current_channel ch). intros t tr.
    now rewrite set_current_same, app_nil_r.
Qed.

(** ** The classifier *)

Lemma detect_jamming_pattern_run clf signal w :
  length signal = n_features_in_ clf ->
  detect_jamming_pattern clf signal w
  = Return ((decide clf signal =? 1)%Z,
            mkWorld (tape w) (trace w ++ [OpClassify])).
Proof.
  intros Hlen. unfold detect_jamming_pattern, clf_predict, bind.
  cbn [forallb]. rewrite (proj2 (Nat.eqb_eq _ _) Hlen). cbn [andb].
  unfold ret, emit. cbn [map nth tape trace].
  now destruct (decide clf signal =? 1)%Z.
Qed.

Lemma detect_jamming_pattern_mismatch clf signal w :
  length signal <> n_features_in_ clf ->
  detect_jamming_pattern clf signal w = Raise ValueError.
Proof.
  intros Hlen. unfold detect_jamming_pattern, clf_predict, bind.
  cbn [forallb]. now rewrite (proj2 (Nat.eqb_neq _ _) Hlen).
Qed.

(** ** The controller *)

Lemma confirmation_utf8 : utf8_encode confirmation = Some confirmation.
Proof. vm_compute. reflexivity. Qed.

Lemma encrypt_message_run key m data w :
  utf8_encode m = Some data ->
  encrypt_message key m w
  = Return (Fernet_encrypt key data,
            mkWorld (tape w) (trace w ++ [OpEncrypt])).
Proof.
  intros E. unfold encrypt_message, str_encode, bind.
  rewrite E. reflexivity.
Qed.

Lemma encrypt_message_refused key m w :
  utf8_encode m = None -> encrypt_message key m w = Raise UnicodeEncodeError.
Proof.
  intros E. unfold encrypt_message, str_encode, bind.
  rewrite E. reflexivity.
Qed.

Lemma decrypt_message_run key token w :
  decrypt_message key token w
  = match decrypt_result key token with
    | Return s => Return (s, mkWorld (tape w) (trace w ++ [OpDecrypt]))
    | Raise e => Raise e
    | Starved => Starved
    end.
Proof.
  unfold decrypt_message, decrypt_result, bytes_decode, bind.
  destruct (Fernet_decrypt key token) as [data|]; [|reflexivity].
  cbn [lift_option]. unfold ret at 1.
  destruct (utf8_decode data); reflexivity.
Qed.

Lemma monitor_and_respond_unfold self signal :
  monitor_and_respond self signal
  = (verdict <- detect_anomaly signal 100 ;;
     ch <- switch_if (fst verdict) (channel self) ;;
     jammed <- detect_jamming_pattern (detector self) signal ;;
     ch <- switch_if jammed ch ;;
     finish self (snd verdict) ch).
Proof. reflexivity. Qed.

Lemma finish_after_recovery self (a : R) ch t tr :
  (encrypted_message <- encrypt_message (encryption self) confirmation ;;
   decrypt_message (encryption self) encrypted_message ;;;
   ret (a, set_channel self ch)) (mkWorld t tr)
  = match decrypt_result (encryption self)
            (confirmation_token (encryption self)) with
    | Return _ =>
        Return ((a, set_channel self ch),
                mkWorld t (tr ++ [OpEncrypt; OpDecrypt]))
    | Raise e => Raise e
    | Starved => Starved
    end.
Proof.
  erewrite bind_Return
    by (apply encrypt_message_run; apply confirmation_utf8).
  unfold bind at 1. rewrite decrypt_message_run.
  fold (confirmation_token (encryption self)).
  destruct (decrypt_result _ _); try reflexivity.
  cbn [tape trace]. unfold ret. now rewrite <- app_assoc.
Qed.

Lemma finish_cases self a ch t tr :
  two_channels ch ->
  finish self a ch (mkWorld t tr) = Starved \/
  exists c3 c4 t',
    c3 <> current_channel ch /\ c4 <> c3 /\
    In c3 (channels ch) /\ In c4 (channels ch) /\
    (length t' < length t)%nat /\
    finish self a ch (mkWorld t tr)
    = match decrypt_result (encryption self)
              (confirmation_token (encryption self)) with
      | Return _ =>
          Return ((a, set_channel self (set_current ch c4)),
                  mkWorld t' (tr ++ finish_trace (current_channel ch) c3 c4))
      | Raise e => Raise e
      | Starved => Starved
      end.
Proof.
  intros Htwo. unfold finish.
  destruct (frequency_hopping_cases ch t tr (two_channels_nonempty Htwo))
    as [Hst|(c3 & t1 & Hin3 & Hne3 & Hhop)].
  { left. now apply bind_Starved. }
  assert (Hlen : (length t1 < length t)%nat).
  { destruct (frequency_hopping_inv _ _ Hhop) as (_ & _ & _ & _ & _ & H).
    exact H. }
  erewrite bind_Return by exact Hhop. cbn [snd].
  unfold recovery_strategy.
  assert (Hother : exists c, In c (channels (set_current ch c3))
                             /\ c <> current_channel (set_current ch c3)).
  { apply two_channels_other. now apply two_channels_set_current. }
  destruct (switch_channel_cases (set_current ch c3) t1
              ((tr ++ [OpHop (current_channel ch) c3]) ++ [OpRecovery])
              Hother)
    as [[-> Hst]|(r & t2 & c4 & -> & Hin4 & Hne4 & Hsw)].
  { left. apply bind_Starved. unfold bind at 1. unfold emit.
    cbn [tape trace]. now apply bind_Starved. }
  right. exists c3, c4, t2.
  cbn [set_current channels current_channel] in Hin4, Hne4.
  repeat split; auto.
  { cbn [length] in Hlen. lia. }
  erewrite bind_Return.
  2:{ unfold bind at 1. unfold emit. cbn [tape trace].
      erewrite bind_Return by exact Hsw. reflexivity. }
  cbn [snd]. rewrite finish_after_recovery.
  destruct (decrypt_result _ _); try reflexivity.
  unfold finish_trace. rewrite <- !app_assoc. reflexivity.
Qed.

Lemma finish_total self (a : R) ch s :
  two_channels ch ->
  decrypt_result (encryption self) (confirmation_token (encryption self))
  = Return s ->
  exists t0 c3 c4,
    forall t tr,
      finish self a ch (mkWorld (t0 ++ t) tr)
      = Return ((a, set_channel self (set_current ch c4)),
                mkWorld t (tr ++ finish_trace (current_channel ch) c3 c4)).
Proof.
  intros Htwo Hdec.
  destruct (@other_channel (channels ch) (current_channel ch) Htwo)
    as (r & Hr).
  set (c3 := pick (channels ch) r) in *.
  assert (Hother : exists c, In c (channels (set_current ch c3))
                             /\ c <> current_channel (set_current ch c3)).
  { apply two_channels_other. now apply two_channels_set_current. }
  apply available_nonempty in Hother.
  set (av := filter _ _) in Hother.
  exists [r; 0%nat], c3, (nth (0 mod length av) av 0%Z). intros t tr.
  unfold finish. cbn [app].
  erewrite bind_Return
    by (apply frequency_hopping_first;
        [now apply two_channels_nonempty|exact Hr]).
  fold c3. cbn [snd].
  erewrite bind_Return.
  2:{ unfold recovery_strategy. unfold bind at 1. unfold emit.
      cbn [tape trace]. unfold switch_channel. fold av.
      erewrite bind_Return.
      2:{ erewrite bind_Return
            by (apply random_choice_step with (d := 0%Z); exact Hother).
          reflexivity. }
      reflexivity. }
  cbn [snd]. rewrite finish_after_recovery, Hdec.
  unfold finish_trace. cbn [current_channel set_current channels tape trace].
  rewrite <- !app_assoc. reflexivity.
Qed.

(** A cycle either runs out of recorded draws or gets as far as the
    decryption, whose outcome is then the outcome of the cycle. *)
Lemma monitor_and_respond_cases self signal t tr :
  ready self signal ->
  monitor_and_respond self signal (mkWorld t tr) = Starved \/
  exists c1 c2 c3 c4 t',
    let c0 := current_channel (channel self) in
    let an := is_anomalous signal 100 in
    let jam := is_jammed (detector self) signal in
    (if an then c1 <> c0 else c1 = c0) /\
    (if jam then c2 <> c1 else c2 = c1) /\
    c3 <> c2 /\ c4 <> c3 /\
    In c4 (channels (channel self)) /\
    (length t' < length t)%nat /\
    monitor_and_respond self signal (mkWorld t tr)
    = match decrypt_result (encryption self)
              (confirmation_token (encryption self)) with
      | Return _ =>
          Return ((peak_amplitude signal,
                   set_channel self (set_current (channel self) c4)),
                  mkWorld t' (tr ++ cycle_trace an jam c0 c1 c2 c3 c4))
      | Raise e => Raise e
      | Starved => Starved
      end.
Proof.
  intros (Hs & Hlen & Htwo). rewrite monitor_and_respond_unfold.
  erewrite bind_Return by (now apply detect_anomaly_run).
  cbn [fst snd tape trace].
  destruct (switch_if_cases (is_anomalous signal 100) t (tr ++ [OpScore])
              Htwo) as [Hst|(c1 & t1 & Hc1 & _ & Hl1 & Hrun1)].
  { left. now apply bind_Starved. }
  erewrite bind_Return by exact Hrun1.
  erewrite bind_Return by (now apply detect_jamming_pattern_run).
  cbn [tape trace]. fold (is_jammed (detector self) signal).
  destruct (switch_if_cases (is_jammed (detector self) signal) t1
              (((tr ++ [OpScore])
                ++ (if is_anomalous signal 100
                    then [OpSwitch (current_channel (channel self)) c1]
                    else [])) ++ [OpClassify])
              (two_channels_set_current c1 Htwo))
    as [Hst|(c2 & t2 & Hc2 & _ & Hl2 & Hrun2)].
  { left. now apply bind_Starved. }
  erewrite bind_Return by exact Hrun2.
  match goal with
  | |- finish ?s ?a ?ch (mkWorld ?t0 ?tr0) = _ \/ _ =>
      destruct (@finish_cases s a ch t0 tr0)
        as [Hst|(c3 & c4 & t' & Hc3 & Hc4 & _ & Hin4 & Hl3 & Hfin)];
      [exact Htwo| |]
  end.
  { now left. }
  right. exists c1, c2, c3, c4, t'. cbv zeta.
  cbn [current_channel set_current channels] in *.
  repeat split; auto; [lia|].
  rewrite Hfin. destruct (decrypt_result _ _); try reflexivity.
  unfold cycle_trace, finish_trace. rewrite <- !app_assoc. reflexivity.
Qed.

(** Some continuation of the draws lets a cycle whose decryption succeeds
    run to its end. *)
Lemma monitor_and_respond_total self signal s :
  ready self signal ->
  decrypt_result (encryption self) (confirmation_token (encryption self))
  = Return s ->
  forall tr, exists t self' w',
    monitor_and_respond self signal (mkWorld t tr)
    = Return ((peak_amplitude signal, self'), w').
Proof.
  intros (Hs & Hlen & Htwo) Hdec tr.
  destruct (switch_if_total (is_anomalous signal 100) Htwo)
    as (ta & c1 & Hrun1).
  destruct (switch_if_total (is_jammed (detector self) signal)
              (two_channels_set_current c1 Htwo)) as (tb & c2 & Hrun2).
  destruct (@finish_total self (peak_amplitude signal)
              (set_current (set_current (channel self) c1) c2) s Htwo Hdec)
    as (tc & c3 & c4 & Hfin).
  exists (ta ++ tb ++ tc ++ []). do 2 eexists.
  rewrite monitor_and_respond_unfold.
  erewrite bind_Return by (now apply detect_anomaly_run).
  cbn [fst snd tape trace].
  erewrite bind_Return by (apply Hrun1).
  erewrite bind_Return by (now apply detect_jamming_pattern_run).
  cbn [tape trace]. fold (is_jammed (detector self) signal).
  erewrite bind_Return by (apply Hrun2).
  rewrite Hfin. reflexivity.
Qed.

(** What every finished cycle looks like. *)
Lemma monitor_and_respond_finished self signal t tr a self' w' :
  ready self signal ->
  monitor_and_respond self signal (mkWorld t tr) = Return ((a, self'), w') ->
  exists c1 c2 c3 c4 s,
    let c0 := current_channel (channel self) in
    let an := is_anomalous signal 100 in
    let jam := is_jammed (detector self) signal in
    (if an then c1 <> c0 else c1 = c0) /\
    (if jam then c2 <> c1 else c2 = c1) /\
    c3 <> c2 /\ c4 <> c3 /\
    decrypt_result (encryption self) (confirmation_token (encryption self))
    = Return s /\
    a = peak_amplitude signal /\
    self' = set_channel self (set_current (channel self) c4) /\
    trace w' = tr ++ cycle_trace an jam c0 c1 c2 c3 c4.
Proof.
  intros Hready Hrun.
  destruct (monitor_and_respond_cases t tr Hready)
    as [Hst|(c1 & c2 & c3 & c4 & t' & H1 & H2 & H3 & H4 & _ & _ & E)];
    [congruence|].
  rewrite E in Hrun.
  destruct (decrypt_result _ _) as [s| |] eqn:Hdec; try discriminate.
  injection Hrun as <- <- <-.
  exists c1, c2, c3, c4, s. cbv zeta. repeat split; auto.
Qed.

Lemma switch_if_channels b ch w ch' w' :
  switch_if b ch w = Return (ch', w') -> channels ch' = channels ch.
Proof.
  destruct b; unfold switch_if; intros E.
  - apply bind_inv in E. destruct E as ([v ch1] & w1 & Hsw & E).
    apply ret_inv in E. destruct E as [<- _]. cbn [snd].
    now destruct (switch_channel_inv _ _ Hsw) as (_ & Hch & _).
  - apply ret_inv in E. now destruct E as [<- _].
Qed.

(** Only a cycle that was ready to start gets to its end. *)
Lemma monitor_and_respond_ready self signal w a self' w' :
  monitor_and_respond self signal w = Return ((a, self'), w') ->
  ready self signal.
Proof.
  rewrite monitor_and_respond_unfold. intros E.
  apply bind_inv in E. destruct E as (verdict & w1 & Hscore & E).
  apply bind_inv in E. destruct E as (ch1 & w2 & Hsw1 & E).
  apply bind_inv in E. destruct E as (jam & w3 & Hcls & E).
  apply bind_inv in E. destruct E as (ch2 & w4 & Hsw2 & E).
  unfold finish in E.
  apply bind_inv in E. destruct E as ([v3 ch3] & w5 & Hhop & E).
  apply bind_inv in E. destruct E as ([v4 ch4] & w6 & Hrec & _).
  cbn [snd] in Hrec. unfold recovery_strategy in Hrec.
  apply bind_inv in Hrec. destruct Hrec as (u & w7 & _ & Hrec).
  apply bind_inv in Hrec. destruct Hrec as ([v5 ch5] & w8 & Hsw & _).
  split; [|split].
  - intros ->. rewrite detect_anomaly_empty in Hscore. discriminate.
  - destruct (Nat.eq_dec (length signal) (n_features_in_ (detector self)))
      as [Hlen|Hlen]; [exact Hlen|].
    rewrite (detect_jamming_pattern_mismatch _ _ w2 Hlen) in Hcls.
    discriminate.
  - destruct (frequency_hopping_inv _ _ Hhop) as (_ & Hch3 & Hin3 & _).
    destruct (switch_channel_inv _ _ Hsw) as (_ & _ & Hin5 & Hne5 & _).
    apply switch_if_channels in Hsw1. apply switch_if_channels in Hsw2.
    exists (current_channel ch5), (current_channel ch3).
    rewrite <- Hsw1, <- Hsw2. split; [|split].
    + now rewrite <- Hch3.
    + exact Hin3.
    + exact Hne5.
Qed.

(** A cycle is the part before the hop followed by the part from the hop
    on. *)
Lemma monitor_and_respond_split self signal w :
  monitor_and_respond self signal w
  = (p <- reach_hop self signal ;; finish self (fst p) (snd p)) w.
Proof.
  rewrite monitor_and_respond_unfold. unfold reach_hop, bind.
  destruct (detect_anomaly signal 100 w) as [[verdict w1]| |];
    try reflexivity.
  destruct (switch_if (fst verdict) (channel self) w1) as [[ch1 w2]| |];
    try reflexivity.
  destruct (detect_jamming_pattern (detector self) signal w2)
    as [[jammed w3]| |]; try reflexivity.
  destruct (switch_if jammed ch1 w3) as [[ch2 w4]| |]; reflexivity.
Qed.

(** A finished cycle, stage by stage: the part before the hop hands a
    channel object to the hop, the hop hands its own to the recovery
    strategy, and the channel object the recovery strategy leaves is the one
    of the returned controller; the securing step touches no draw. *)
Lemma monitor_and_respond_stages self signal w a self' w' :
  monitor_and_respond self signal w = Return ((a, self'), w') ->
  exists ch2 w2 ch3 w3 w4,
    reach_hop self signal w = Return ((a, ch2), w2) /\
    frequency_hopping ch2 w2 = Return ((PyNone, ch3), w3) /\
    recovery_strategy ch3 w3 = Return ((PyNone, channel self'), w4) /\
    self' = set_channel self (channel self') /\
    w' = mkWorld (tape w4) (trace w4 ++ [OpEncrypt; OpDecrypt]).
Proof.
  rewrite monitor_and_respond_split. intros E.
  apply bind_inv in E. destruct E as ([a0 ch2] & w2 & Hpre & E).
  cbn [fst snd] in E. unfold finish in E.
  apply bind_inv in E. destruct E as ([v3 ch3] & w3 & Hhop & E).
  apply bind_inv in E. destruct E as ([v4 ch4] & [t4 tr4] & Hrec & E).
  cbn [snd] in Hrec, E.
  rewrite finish_after_recovery in E.
  destruct (decrypt_result _ _); try discriminate.
  injection E as <- <- <-.
  destruct (frequency_hopping_inv _ _ Hhop) as (-> & _).
  assert (Hv4 : v4 = PyNone).
  { unfold recovery_strategy in Hrec.
    apply bind_inv in Hrec. destruct Hrec as (u & w5 & _ & Hrec).
    apply bind_inv in Hrec. destruct Hrec as (r & w6 & _ & Hrec).
    apply ret_inv in Hrec. destruct Hrec as [Hrec _]. congruence. }
  subst v4.
  exists ch2, w2, ch3, w3, (mkWorld t4 tr4).
  cbn [set_channel channel tape trace]. repeat split; auto.
Qed.

(** The recovery strategy is one switch away from the channel it finds. *)
Lemma recovery_strategy_inv self w v self' w' :
  recovery_strategy self w = Return ((v, self'), w') ->
  switch_channel self (mkWorld (tape w) (trace w ++ [OpRecovery]))
  = Return ((PyNone, self'), w') /\
  channels self' = channels self /\
  In (current_channel self') (channels self) /\
  current_channel self' <> current_channel self /\
  trace w' = trace w ++ [OpRecovery;
                         OpSwitch (current_channel self)
                           (current_channel self')].
Proof.
  unfold recovery_strategy. intros E.
  apply bind_inv in E. destruct E as (u & w1 & He & E).
  apply emit_inv in He. subst w1.
  apply bind_inv in E. destruct E as ([v1 s1] & w2 & Hsw & E).
  apply ret_inv in E. destruct E as [E ->]. cbn [snd] in E.
  injection E as _ <-.
  destruct (switch_channel_inv _ _ Hsw) as (-> & Hch & Hin & Hne & Htr & _).
  cbn [trace] in Htr. rewrite <- app_assoc in Htr.
  repeat split; auto.
Qed.

(** The part before the hop keeps the channel list. *)
Lemma reach_hop_channels self signal w a ch2 w2 :
  reach_hop self signal w = Return ((a, ch2), w2) ->
  channels ch2 = channels (channel self).
Proof.
  unfold reach_hop. intros E.
  apply bind_inv in E. destruct E as (verdict & w1 & _ & E).
  apply bind_inv in E. destruct E as (ch1 & w1b & Hsw1 & E).
  apply bind_inv in E. destruct E as (jam & w1c & _ & E).
  apply bind_inv in E. destruct E as (ch & w1d & Hsw2 & E).
  apply ret_inv in E. destruct E as [E _]. injection E as _ <-.
  apply switch_if_channels in Hsw1. apply switch_if_channels in Hsw2.
  congruence.
Qed.

(** With neither detector firing the hop is invoked on the channel object
    the cycle started with, and no draw has been used. *)
Lemma reach_hop_quiet self signal t tr :
  signal <> [] ->
  length signal = n_features_in_ (detector self) ->
  is_anomalous signal 100 = false ->
  is_jammed (detector self) signal = false ->
  reach_hop self signal (mkWorld t tr)
  = Return ((peak_amplitude signal, channel self),
            mkWorld t (tr ++ [OpScore; OpClassify])).
Proof.
  intros Hs Hlen Han Hjam. unfold reach_hop.
  erewrite bind_Return by (now apply detect_anomaly_run).
  cbn [fst snd tape trace]. rewrite Han.
  erewrite bind_Return by reflexivity.
  erewrite bind_Return by (now apply detect_jamming_pattern_run).
  cbn [tape trace]. fold (is_jammed (detector self) signal). rewrite Hjam.
  unfold switch_if, bind, ret. now rewrite <- app_assoc.
Qed.

Lemma count_switch_cycle an jam c0 c1 c2 c3 c4 :
  count is_switch (cycle_trace an jam c0 c1 c2 c3 c4)
  = (b2n an + b2n jam + 1)%nat /\
  count is_switch (before_hop (cycle_trace an jam c0 c1 c2 c3 c4))
  = (b2n an + b2n jam)%nat.
Proof. destruct an, jam; split; reflexivity. Qed.

Lemma count_hop_cycle an jam c0 c1 c2 c3 c4 :
  count is_hop (cycle_trace an jam c0 c1 c2 c3 c4) = 1%nat.
Proof. destruct an, jam; reflexivity. Qed.

Lemma count_changes_cycle (an jam : bool) (c0 c1 c2 c3 c4 : Z) :
  (if an then c1 <> c0 else c1 = c0) ->
  (if jam then c2 <> c1 else c2 = c1) ->
  c3 <> c2 -> c4 <> c3 ->
  count changes_channel (cycle_trace an jam c0 c1 c2 c3 c4)
  = (b2n an + b2n jam + 2)%nat.
Proof.
  intros H1 H2 H3 H4.
  assert (E3 : (c2 =? c3)%Z = false) by (apply Z.eqb_neq; congruence).
  assert (E4 : (c3 =? c4)%Z = false) by (apply Z.eqb_neq; congruence).
  destruct an, jam; unfold count, cycle_trace;
    cbn [app filter changes_channel];
    rewrite ?E3, ?E4;
    try (replace (c0 =? c1)%Z with false
          by (symmetry; apply Z.eqb_neq; congruence));
    try (replace (c1 =? c2)%Z with false
          by (symmetry; apply Z.eqb_neq; congruence));
    reflexivity.
Qed.

(** ** The claims about a monitoring cycle *)

(** C1, as amended.  A cycle that finishes has performed, in this order:
    the scoring; a switch if the scorer found an anomaly; the
    classification; a switch if the classifier predicted jamming; the hop;
    the recovery strategy with a switch of its own; the encryption and the
    decryption.  Such cycles exist for every ready controller whose cipher
    accepts its own token. *)
Theorem cycle_order self signal tr :
  (forall t a self' w',
     monitor_and_respond self signal (mkWorld t tr)
     = Return ((a, self'), w') ->
     exists c1 c2 c3 c4,
       trace w'
       = tr ++ cycle_trace (is_anomalous signal 100)
                 (is_jammed (detector self) signal)
                 (current_channel (channel self)) c1 c2 c3 c4) /\
  (ready self signal ->
   forall s,
     decrypt_result (encryption self) (confirmation_token (encryption self))
     = Return s ->
     finishes self signal tr).
Proof.
  split.
  - intros t a self' w' Hrun.
    pose proof (monitor_and_respond_ready _ _ _ Hrun) as Hready.
    destruct (monitor_and_respond_finished t tr Hready Hrun)
      as (c1 & c2 & c3 & c4 & _ & _ & _ & _ & _ & _ & _ & _ & Htr).
    now exists c1, c2, c3, c4.
  - intros Hready s Hdec.
    destruct (monitor_and_respond_total Hready Hdec tr)
      as (t & self' & w' & E).
    now exists t, (peak_amplitude signal), self', w'.
Qed.

(** C2, as amended.  A cycle that finishes has invoked [switch_channel]
    once for each detector that fired, before the hop, and once more in the
    recovery strategy, after the hop.  Such cycles exist for every ready
    controller whose cipher accepts its own token. *)
Theorem switch_count self signal tr :
  (forall t a self' w',
     monitor_and_respond self signal (mkWorld t tr)
     = Return ((a, self'), w') ->
     exists evs,
       trace w' = tr ++ evs /\
       count is_switch (before_hop evs)
       = (b2n (is_anomalous signal 100)
          + b2n (is_jammed (detector self) signal))%nat /\
       count is_switch evs
       = (b2n (is_anomalous signal 100)
          + b2n (is_jammed (detector self) signal) + 1)%nat) /\
  (ready self signal ->
   forall s,
     decrypt_result (encryption self) (confirmation_token (encryption self))
     = Return s ->
     finishes self signal tr).
Proof.
  split.
  - intros t a self' w' Hrun.
    pose proof (monitor_and_respond_ready _ _ _ Hrun) as Hready.
    destruct (monitor_and_respond_finished t tr Hready Hrun)
      as (c1 & c2 & c3 & c4 & _ & _ & _ & _ & _ & _ & _ & _ & Htr).
    eexists. split; [exact Htr|].
    destruct (count_switch_cycle (is_anomalous signal 100)
                (is_jammed (detector self) signal)
                (current_channel (channel self)) c1 c2 c3 c4) as [Hb Ha].
    now split.
  - intros Hready s Hdec.
    destruct (monitor_and_respond_total Hready Hdec tr)
      as (t & self' & w' & E).
    now exists t, (peak_amplitude signal), self', w'.
Qed.

(** C3, as amended.  A cycle that finishes has invoked [frequency_hopping]
    exactly once, whatever the detectors found.  The hop runs on the channel
    object the part before it has left and with the draws that part has
    left; it leaves another member of the channel list as the current
    channel; its event is the only hop of the cycle; and the channel object
    of the returned controller is what the recovery strategy makes of the
    hop's.  So the current channel changed at least once in the cycle.  Such
    cycles exist for every ready controller whose cipher accepts its own
    token. *)
Theorem one_hop_per_cycle self signal tr :
  (forall t a self' w',
     monitor_and_respond self signal (mkWorld t tr)
     = Return ((a, self'), w') ->
     exists ch2 w2 ch3 w3 w4 evs,
       reach_hop self signal (mkWorld t tr) = Return ((a, ch2), w2) /\
       frequency_hopping ch2 w2 = Return ((PyNone, ch3), w3) /\
       recovery_strategy ch3 w3 = Return ((PyNone, channel self'), w4) /\
       tape w' = tape w4 /\
       channels ch3 = channels (channel self) /\
       In (current_channel ch3) (channels (channel self)) /\
       current_channel ch3 <> current_channel ch2 /\
       trace w3
       = trace w2 ++ [OpHop (current_channel ch2) (current_channel ch3)] /\
       trace w' = tr ++ evs /\
       count is_hop evs = 1%nat) /\
  (ready self signal ->
   forall s,
     decrypt_result (encryption self) (confirmation_token (encryption self))
     = Return s ->
     finishes self signal tr).
Proof.
  split.
  - intros t a self' w' Hrun.
    pose proof (monitor_and_respond_ready _ _ _ Hrun) as Hready.
    destruct (monitor_and_respond_finished t tr Hready Hrun)
      as (c1 & c2 & c3 & c4 & _ & _ & _ & _ & _ & _ & _ & _ & Htr).
    destruct (monitor_and_respond_stages _ _ _ Hrun)
      as (ch2 & w2 & ch3 & w3 & w4 & Hpre & Hhop & Hrec & _ & Hw).
    destruct (frequency_hopping_inv _ _ Hhop)
      as (_ & Hch & Hin & Hne & Hev & _).
    pose proof (reach_hop_channels _ _ _ Hpre) as Hch2.
    exists ch2, w2, ch3, w3, w4,
      (cycle_trace (is_anomalous signal 100)
         (is_jammed (detector self) signal)
         (current_channel (channel self)) c1 c2 c3 c4).
    split; [exact Hpre|]. split; [exact Hhop|]. split; [exact Hrec|].
    split; [now rewrite Hw|]. split; [congruence|].
    split; [now rewrite <- Hch2|]. split; [exact Hne|].
    split; [exact Hev|]. split; [exact Htr|]. apply count_hop_cycle.
  - intros Hready s Hdec.
    destruct (monitor_and_respond_total Hready Hdec tr)
      as (t & self' & w' & E).
    now exists t, (peak_amplitude signal), self', w'.
Qed.

(** C10, as amended.  A cycle that finishes has changed the current channel
    at least twice.  The hop runs on the channel object the part before it
    has left and selects a channel other than the current one; the recovery
    strategy then invokes [switch_channel] on the hop's channel object,
    which selects a channel other than the one the hop selected, and the
    channel object it leaves is the one of the returned controller, whose
    other fields are those of the controller the cycle started with.  With
    neither detector firing the hop runs on the channel object the cycle
    started with, before any draw, and these are the only two changes.
    Such cycles exist for every ready controller whose cipher accepts its
    own token. *)
Theorem hop_then_recovery_switch self signal tr :
  (forall t a self' w',
     monitor_and_respond self signal (mkWorld t tr)
     = Return ((a, self'), w') ->
     exists ch2 w2 ch3 w3 w4 evs,
       reach_hop self signal (mkWorld t tr) = Return ((a, ch2), w2) /\
       frequency_hopping ch2 w2 = Return ((PyNone, ch3), w3) /\
       recovery_strategy ch3 w3 = Return ((PyNone, channel self'), w4) /\
       switch_channel ch3 (mkWorld (tape w3) (trace w3 ++ [OpRecovery]))
       = Return ((PyNone, channel self'), w4) /\
       self' = set_channel self (channel self') /\
       tape w' = tape w4 /\
       current_channel ch3 <> current_channel ch2 /\
       current_channel (channel self') <> current_channel ch3 /\
       In (current_channel ch3) (channels (channel self)) /\
       In (current_channel (channel self')) (channels (channel self)) /\
       trace w'
       = trace w2 ++ finish_trace (current_channel ch2) (current_channel ch3)
                       (current_channel (channel self')) /\
       trace w' = tr ++ evs /\
       (2 <= count changes_channel evs)%nat /\
       (is_anomalous signal 100 = false ->
        is_jammed (detector self) signal = false ->
        ch2 = channel self /\
        w2 = mkWorld t (tr ++ [OpScore; OpClassify]) /\
        count changes_channel evs = 2%nat)) /\
  (ready self signal ->
   forall s,
     decrypt_result (encryption self) (confirmation_token (encryption self))
     = Return s ->
     finishes self signal tr).
Proof.
  split.
  - intros t a self' w' Hrun.
    pose proof (monitor_and_respond_ready _ _ _ Hrun) as Hready.
    destruct (monitor_and_respond_finished t tr Hready Hrun)
      as (c1 & c2 & c3 & c4 & _ & H1 & H2 & H3 & H4 & _ & Ha & _ & Htr).
    cbv zeta in H1, H2.
    destruct (monitor_and_respond_stages _ _ _ Hrun)
      as (ch2 & w2 & ch3 & w3 & w4 & Hpre & Hhop & Hrec & Hself & Hw).
    destruct (frequency_hopping_inv _ _ Hhop)
      as (_ & Hch3 & Hin3 & Hne3 & Hev3 & _).
    destruct (recovery_strategy_inv _ _ Hrec)
      as (Hsw & Hch4 & Hin4 & Hne4 & Hev4).
    pose proof (reach_hop_channels _ _ _ Hpre) as Hch2.
    exists ch2, w2, ch3, w3, w4,
      (cycle_trace (is_anomalous signal 100)
         (is_jammed (detector self) signal)
         (current_channel (channel self)) c1 c2 c3 c4).
    split; [exact Hpre|]. split; [exact Hhop|]. split; [exact Hrec|].
    split; [exact Hsw|].
    split; [exact Hself|]. split; [now rewrite Hw|].
    split; [exact Hne3|]. split; [exact Hne4|].
    split; [now rewrite <- Hch2|].
    split; [now rewrite <- Hch2, <- Hch3|].
    split.
    { rewrite Hw. cbn [trace]. rewrite Hev4, Hev3. unfold finish_trace.
      rewrite <- !app_assoc. reflexivity. }
    split; [exact Htr|].
    rewrite (count_changes_cycle _ _ _ _ H1 H2 H3 H4). split; [lia|].
    intros Han Hjam. destruct Hready as (Hs & Hlen & _).
    rewrite (reach_hop_quiet self t tr Hs Hlen Han Hjam) in Hpre.
    injection Hpre as _ <- <-. rewrite Han, Hjam.
    repeat split.
  - intros Hready s Hdec.
    destruct (monitor_and_respond_total Hready Hdec tr)
      as (t & self' & w' & E).
    now exists t, (peak_amplitude signal), self', w'.
Qed.


(** ** The claims about the components *)

Lemma linspace_unit_grid :
  linspace 0 1 500 = map (fun i => (INR i / 499)%R) (seq 0 500).
Proof.
  apply nth_ext with (d := 0%R) (d' := 0%R).
  - now rewrite linspace_length, length_map, length_seq.
  - intros i Hi. rewrite linspace_length in Hi.
    rewrite linspace_nth by lia.
    rewrite nth_map_in with (d' := 0%nat) by (now rewrite length_seq).
    rewrite seq_nth by assumption. cbn [Nat.add].
    replace (INR (500 - 1)) with 499%R
      by (rewrite INR_IZR_INZ; change (Z.of_nat (500 - 1)) with 499%Z;
          reflexivity).
    field.
Qed.

(** C5, as amended.  [generate_signal] returns exactly 500 samples; sample
    [i] is the sine at time [i / 499] plus [noise_level] times the [i]-th
    normal draw.  The 500 time points are evenly spaced over the closed
    interval from 0 to 1, both ends included. *)
Theorem generate_signal_samples frequency noise_level normal :
  generate_signal frequency noise_level normal
  = map (fun i => (sin (2 * PI * frequency * (INR i / 499))
                   + noise_level * normal i)%R) (seq 0 500)
  /\ length (generate_signal frequency noise_level normal) = 500%nat
  /\ nth 0 (linspace 0 1 500) 0%R = 0%R
  /\ nth 499 (linspace 0 1 500) 0%R = 1%R.
Proof.
  split; [|split; [apply generate_signal_length|split]].
  - apply nth_ext with (d := 0%R) (d' := 0%R).
    + now rewrite generate_signal_length, length_map, length_seq.
    + intros i Hi. rewrite generate_signal_length in Hi.
      rewrite generate_signal_nth by assumption.
      rewrite nth_map_in with (d' := 0%nat) by (now rewrite length_seq).
      now rewrite seq_nth.
  - rewrite linspace_nth by lia. cbn [INR]. lra.
  - rewrite linspace_nth by lia.
    replace (INR (500 - 1)) with 499%R
      by (rewrite INR_IZR_INZ; change (Z.of_nat (500 - 1)) with 499%Z;
          reflexivity).
    replace (INR 499) with 499%R
      by (rewrite INR_IZR_INZ; change (Z.of_nat 499) with 499%Z;
          reflexivity).
    lra.
Qed.

(** C6.  On a waveform with at least one sample [detect_anomaly] returns,
    whatever the state of the world, one and the same pair: the flag and
    the peak amplitude.  The peak amplitude is a magnitude of the discrete
    Fourier transform of the waveform and no magnitude exceeds it, it is
    not negative, and the flag is set exactly when the peak amplitude is
    greater than the threshold. *)
Theorem detect_anomaly_verdict signal threshold :
  signal <> [] ->
  exists flag peak,
    (forall w,
       detect_anomaly signal threshold w
       = Return ((flag, peak), mkWorld (tape w) (trace w ++ [OpScore]))) /\
    In peak (magnitudes signal) /\
    (forall m, In m (magnitudes signal) -> (m <= peak)%R) /\
    (0 <= peak)%R /\
    (flag = true <-> (peak > threshold)%R).
Proof.
  intros Hs.
  exists (is_anomalous signal threshold), (peak_amplitude signal).
  split; [intros w; now apply detect_anomaly_run|].
  split; [now apply peak_amplitude_in|].
  split; [intros m; apply peak_amplitude_ge|].
  split; [apply peak_amplitude_nonneg|apply is_anomalous_iff].
Qed.

(** C7, as amended.  On a channel set with at least two members, with the
    current channel among them, [switch_channel] and [frequency_hopping]
    both return [None] and leave as current channel a member of the set
    other than the channel that was current before the call.
    [switch_channel] does so with one draw; [frequency_hopping] does so as
    soon as a draw selects another channel, and such draws exist. *)
Theorem switch_and_hop_select_another self t tr :
  NoDup (channels self) ->
  (2 <= length (channels self))%nat ->
  In (current_channel self) (channels self) ->
  (forall v self' w',
     switch_channel self (mkWorld t tr) = Return ((v, self'), w') ->
     v = PyNone /\ In (current_channel self') (channels self) /\
     current_channel self' <> current_channel self /\
     channels self' = channels self) /\
  (forall v self' w',
     frequency_hopping self (mkWorld t tr) = Return ((v, self'), w') ->
     v = PyNone /\ In (current_channel self') (channels self) /\
     current_channel self' <> current_channel self /\
     channels self' = channels self) /\
  (t <> [] ->
   exists self' w',
     switch_channel self (mkWorld t tr) = Return ((PyNone, self'), w')) /\
  ((exists r, In r t /\ pick (channels self) r <> current_channel self) ->
   exists self' w',
     frequency_hopping self (mkWorld t tr) = Return ((PyNone, self'), w')) /\
  (exists r, pick (channels self) r <> current_channel self).
Proof.
  intros Hnd Hlen Hin.
  pose proof (two_members Hnd Hlen) as Htwo.
  split; [|split; [|split; [|split]]].
  - intros v self' w' E.
    destruct (switch_channel_inv _ _ E) as (Hv & Hch & Hi & Hne & _).
    auto.
  - intros v self' w' E.
    destruct (frequency_hopping_inv _ _ E) as (Hv & Hch & Hi & Hne & _).
    auto.
  - intros Ht. destruct t as [|r t']; [congruence|].
    destruct (switch_channel_total self r t' tr) as (c & E).
    { apply (@two_channels_other self). exact Htwo. }
    eauto.
  - intros Hgood.
    destruct (@frequency_hopping_total self t tr) as (c & t' & E); eauto.
    destruct Htwo as (a & _ & Ha & _). intros E. rewrite E in Ha.
    contradiction.
  - now apply other_channel.
Qed.

Lemma clf_fit_inv X y clf w0 w1 :
  clf_fit X y w0 = Return (clf, w1) ->
  forall row, In row X -> length row = n_features_in_ clf.
Proof.
  unfold clf_fit. destruct X as [|r0 rest]; [discriminate|].
  destruct (forallb _ rest) eqn:Hall; cbn [andb]; [|discriminate].
  destruct (negb _ && _); [|discriminate].
  intros E. apply ret_inv in E. destruct E as [<- _]. cbn [n_features_in_].
  intros row [<-|Hin]; [reflexivity|].
  rewrite forallb_forall in Hall. now apply Nat.eqb_eq, Hall.
Qed.

(** The detector the script trains is fitted on rows of 500 samples. *)
Lemma train_jamming_detector_run normal w :
  exists clf,
    train_jamming_detector normal w = Return (clf, w) /\
    n_features_in_ clf = 500%nat.
Proof.
  unfold train_jamming_detector, clf_fit.
  set (X := map _ (seq 0 50) ++ map _ (seq 50 50)).
  assert (Hrows : forall row, In row X -> length row = 500%nat).
  { intros row Hin. unfold X in Hin. apply in_app_iff in Hin.
    destruct Hin as [Hin|Hin]; apply in_map_iff in Hin;
      destruct Hin as (i & <- & _); apply generate_signal_length. }
  assert (HX : length X = 100%nat).
  { unfold X. now rewrite length_app, !length_map, !length_seq. }
  destruct X as [|r0 rest] eqn:EX; [discriminate|].
  assert (H0 : length r0 = 500%nat) by (apply Hrows; now left).
  assert (Hall : forallb (fun r => (length r =? length r0)%nat) rest = true).
  { apply forallb_forall. intros r Hr. apply Nat.eqb_eq.
    rewrite H0. apply Hrows. now right. }
  rewrite Hall, H0. cbn [andb negb Nat.eqb].
  assert (Hy : (length (r0 :: rest)
                =? length (repeat 0%Z 50 ++ repeat 1%Z 50))%nat = true).
  { rewrite HX. reflexivity. }
  rewrite Hy. eexists. split; reflexivity.
Qed.

(** C9.  A classifier fitted on a training set refuses, with scikit-learn's
    [ValueError], every waveform whose length differs from the length of
    the rows it was fitted on: [detect_jamming_pattern] raises and gives no
    verdict. *)
Theorem predict_rejects_other_lengths X y clf w0 w1 signal w :
  clf_fit X y w0 = Return (clf, w1) ->
  (exists row, In row X /\ length signal <> length row) ->
  detect_jamming_pattern clf signal w = Raise ValueError.
Proof.
  intros Hfit (row & Hin & Hlen).
  apply detect_jamming_pattern_mismatch.
  now rewrite <- (@clf_fit_inv X y clf w0 w1 Hfit row Hin).
Qed.

(** * Further properties *)

(** ** The channel object *)

Lemma pick_member chs r : chs <> [] -> In (pick chs r) chs.
Proof.
  intros H. unfold pick. apply nth_In. apply Nat.mod_upper_bound.
  now destruct chs.
Qed.

(** X1.  [CommunicationChannel.__init__] takes one draw and writes no event;
    the object it builds has the channels 1 to 5 and a current channel
    among them.  Without a draw left it does not return. *)
Theorem initial_channel_is_member w :
  (forall ch w',
     CommunicationChannel_init w = Return (ch, w') ->
     channels ch = [1; 2; 3; 4; 5]%Z /\
     (1 <= current_channel ch <= 5)%Z /\
     In (current_channel ch) (channels ch) /\
     trace w' = trace w /\
     exists r, tape w = r :: tape w') /\
  (tape w <> [] ->
   exists ch w', CommunicationChannel_init w = Return (ch, w')) /\
  (tape w = [] -> CommunicationChannel_init w = Starved).
Proof.
  unfold CommunicationChannel_init. split; [|split].
  - intros ch w' E.
    apply bind_inv in E. destruct E as (c & w1 & Hc & E).
    apply ret_inv in E. destruct E as [<- <-].
    apply random_choice_inv in Hc. destruct Hc as (Hin & Htr & r & Ht & _).
    cbn [channels current_channel].
    split; [reflexivity|]. split; [|split; [exact Hin|split; [exact Htr|]]].
    + cbn [In] in Hin.
      repeat (destruct Hin as [<-|Hin]; [lia|]). contradiction.
    + now exists r.
  - intros Ht. destruct w as [[|r t] tr]; [now contradiction Ht|].
    do 2 eexists. erewrite bind_Return
      by (apply random_choice_step with (d := 0%Z); discriminate).
    reflexivity.
  - intros Ht. apply bind_Starved. unfold random_choice. now rewrite Ht.
Qed.

Lemma filter_others_nil chs cur :
  (forall c, In c chs -> c = cur) ->
  filter (fun ch => negb (ch =? cur)%Z) chs = [].
Proof.
  intros Hall. induction chs as [|a chs IH]; [reflexivity|].
  cbn [filter]. rewrite (Hall a (or_introl eq_refl)), Z.eqb_refl.
  cbn [negb]. apply IH. intros c Hc. apply Hall. now right.
Qed.

(** X2.  [switch_channel], and with it [recovery_strategy], raises
    [IndexError] exactly when the channel set has no member other than the
    current channel; this does not depend on the draws. *)
Theorem switch_channel_needs_another self w :
  ((forall c, In c (channels self) -> c = current_channel self) <->
   switch_channel self w = Raise IndexError) /\
  ((forall c, In c (channels self) -> c = current_channel self) <->
   recovery_strategy self w = Raise IndexError).
Proof.
  assert (Hraise : (forall c, In c (channels self) -> c = current_channel self)
                   -> forall w0, switch_channel self w0 = Raise IndexError).
  { intros Hall w0. unfold switch_channel.
    rewrite (filter_others_nil _ Hall). reflexivity. }
  assert (Helse : forall c w0,
             In c (channels self) -> c <> current_channel self ->
             switch_channel self w0 <> Raise IndexError).
  { intros c [t tr] Hin Hne E.
    destruct (switch_channel_cases self t tr)
      as [[_ Hst]|(r & t' & c' & _ & _ & _ & Hrun)];
      [now exists c|congruence|congruence]. }
  assert (Hrec : forall w0,
             recovery_strategy self w0
             = match switch_channel self
                       (mkWorld (tape w0) (trace w0 ++ [OpRecovery])) with
               | Return (r, w1) => Return ((PyNone, snd r), w1)
               | Raise e => Raise e
               | Starved => Starved
               end).
  { intros w0. unfold recovery_strategy, bind at 1. unfold emit.
    unfold bind at 1. destruct (switch_channel self _) as [[r w1]| |];
      reflexivity. }
  split; split.
  - intros Hall. now apply Hraise.
  - intros E c Hin.
    destruct (Z.eq_dec c (current_channel self)) as [Heq|Hne];
      [exact Heq|]. now destruct (Helse c w Hin Hne).
  - intros Hall. rewrite Hrec, Hraise by assumption. reflexivity.
  - intros E c Hin.
    destruct (Z.eq_dec c (current_channel self)) as [Heq|Hne];
      [exact Heq|].
    rewrite Hrec in E.
    destruct (switch_channel self _) as [[r w1]| |] eqn:Hs;
      try discriminate.
    injection E as ->. now destruct (Helse c _ Hin Hne Hs).
Qed.

Lemma hop_loop_spins chs cur tr :
  chs <> [] ->
  (forall c, In c chs -> c = cur) ->
  forall fuel t, hop_loop chs cur fuel cur (mkWorld t tr) = Starved.
Proof.
  intros Hchs Hall. unfold hop_loop.
  induction fuel as [|n IH]; intros t; cbn [while_]; rewrite Z.eqb_refl;
    [reflexivity|].
  destruct t as [|r t'].
  - apply bind_Starved. unfold random_choice. now destruct chs.
  - erewrite bind_Return by (now apply random_choice_channels).
    rewrite (Hall _ (pick_member r Hchs)). apply IH.
Qed.

(** X3.  On a channel set whose members all equal the current channel,
    [frequency_hopping] never returns and never raises: it redraws for as
    long as there are draws.  On an empty channel set it raises
    [IndexError]. *)
Theorem frequency_hopping_spins self w :
  (forall c, In c (channels self) -> c = current_channel self) ->
  (channels self <> [] -> frequency_hopping self w = Starved) /\
  (channels self = [] -> frequency_hopping self w = Raise IndexError).
Proof.
  intros Hall. split.
  - intros Hchs. destruct w as [[|r t] tr]; unfold frequency_hopping.
    + apply bind_Starved. unfold random_choice.
      now destruct (channels self).
    + erewrite bind_Return by (now apply random_choice_channels).
      apply bind_Starved. unfold while_tape. cbn [tape].
      rewrite (Hall _ (pick_member r Hchs)).
      now apply (hop_loop_spins tr Hchs Hall).
  - intros E. unfold frequency_hopping, bind, random_choice.
    now rewrite E.
Qed.

Lemma hop_loop_skips chs cur r post tr :
  chs <> [] ->
  pick chs r <> cur ->
  forall pre fuel,
    (length pre < fuel)%nat ->
    Forall (fun d => pick chs d = cur) pre ->
    hop_loop chs cur fuel cur (mkWorld (pre ++ r :: post) tr)
    = Return (pick chs r, mkWorld post tr).
Proof.
  intros Hchs Hr. unfold hop_loop.
  induction pre as [|d pre IH]; intros fuel Hfuel Hpre;
    (destruct fuel as [|n]; [cbn in Hfuel; lia|]);
    cbn [while_ app]; rewrite Z.eqb_refl;
    erewrite bind_Return by (now apply random_choice_channels).
  - destruct n; cbn [while_];
      destruct (Z.eqb_spec (pick chs r) cur); try contradiction; reflexivity.
  - pose proof (Forall_inv Hpre) as Hd.
    pose proof (Forall_inv_tail Hpre) as Hpre'.
    cbv beta in Hd. rewrite Hd.
    apply IH; [cbn in Hfuel; lia|assumption].
Qed.

(** X4.  [frequency_hopping] selects the channel of the first draw that does
    not select the current channel, and consumes the draws up to and
    including that one. *)
Theorem frequency_hopping_first_other self pre r post tr :
  channels self <> [] ->
  Forall (fun d => pick (channels self) d = current_channel self) pre ->
  pick (channels self) r <> current_channel self ->
  frequency_hopping self (mkWorld (pre ++ r :: post) tr)
  = Return ((PyNone, set_current self (pick (channels self) r)),
            mkWorld post
              (tr ++ [OpHop (current_channel self)
                            (pick (channels self) r)])).
Proof.
  intros Hchs Hpre Hr. destruct pre as [|d pre].
  - now apply frequency_hopping_first.
  - pose proof (Forall_inv Hpre) as Hd.
    pose proof (Forall_inv_tail Hpre) as Hpre'.
    cbv beta in Hd.
    unfold frequency_hopping. cbn [app].
    erewrite bind_Return by (now apply random_choice_channels).
    erewrite bind_Return.
    2:{ unfold while_tape. cbn [tape]. rewrite Hd.
        apply (@hop_loop_skips (channels self) (current_channel self)
                 r post tr Hchs Hr); [|exact Hpre'].
        rewrite length_app. cbn [length]. lia. }
    reflexivity.
Qed.

(** X5.  Every member of the channel set other than the current channel can
    be selected: some draw makes [switch_channel] select it and some draw
    makes [frequency_hopping] select it. *)
Theorem every_other_channel_reachable self c :
  In c (channels self) ->
  c <> current_channel self ->
  (exists r, forall t tr,
      switch_channel self (mkWorld (r :: t) tr)
      = Return ((PyNone, set_current self c),
                mkWorld t (tr ++ [OpSwitch (current_channel self) c]))) /\
  (exists r, forall t tr,
      frequency_hopping self (mkWorld (r :: t) tr)
      = Return ((PyNone, set_current self c),
                mkWorld t (tr ++ [OpHop (current_channel self) c]))).
Proof.
  intros Hin Hne. split.
  - set (av := filter (fun ch => negb (ch =? current_channel self)%Z)
                 (channels self)).
    assert (Hav : In c av).
    { apply filter_In. split; [exact Hin|].
      now apply negb_true_iff, Z.eqb_neq. }
    destruct (In_nth av c 0%Z Hav) as (i & Hi & Hnth).
    exists i. intros t tr. unfold switch_channel. fold av.
    erewrite bind_Return.
    2:{ apply random_choice_step with (d := 0%Z). intros E.
        rewrite E in Hav. contradiction. }
    rewrite Nat.mod_small by exact Hi. rewrite Hnth. reflexivity.
  - destruct (In_nth (channels self) c (hd 0%Z (channels self)) Hin)
      as (i & Hi & Hnth).
    assert (Hpick : pick (channels self) i = c).
    { unfold pick. now rewrite Nat.mod_small. }
    exists i. intros t tr. rewrite <- Hpick.
    apply frequency_hopping_first; [|now rewrite Hpick].
    intros E. rewrite E in Hin. contradiction.
Qed.

(** ** Training, construction and whole cycles *)

Lemma five_two_channels c : two_channels (mkChannel [1; 2; 3; 4; 5]%Z c).
Proof.
  exists 1%Z, 2%Z. cbn [channels].
  split; [now left|]. split; [right; now left|discriminate].
Qed.

Lemma controller_init_run normal key r t tr :
  exists clf,
    n_features_in_ clf = 500%nat /\
    JamResistanceController_init normal key (mkWorld (r :: t) tr)
    = Return (mkController
                (mkChannel [1; 2; 3; 4; 5]%Z (pick [1; 2; 3; 4; 5]%Z r))
                clf key,
              mkWorld t tr).
Proof.
  destruct (train_jamming_detector_run normal (mkWorld t tr))
    as (clf & Hrun & Hn).
  exists clf. split; [exact Hn|].
  unfold JamResistanceController_init, CommunicationChannel_init.
  erewrite bind_Return.
  2:{ erewrite bind_Return
        by (apply random_choice_channels; discriminate).
      reflexivity. }
  erewrite bind_Return by exact Hrun. reflexivity.
Qed.

Lemma controller_init_inv normal key w0 ctl w1 :
  JamResistanceController_init normal key w0 = Return (ctl, w1) ->
  exists r,
    tape w0 = r :: tape w1 /\ trace w1 = trace w0 /\
    channel ctl = mkChannel [1; 2; 3; 4; 5]%Z (pick [1; 2; 3; 4; 5]%Z r) /\
    n_features_in_ (detector ctl) = 500%nat /\
    encryption ctl = key.
Proof.
  destruct w0 as [[|r t] tr]; intros E.
  - unfold JamResistanceController_init, CommunicationChannel_init in E.
    rewrite bind_Starved in E; [discriminate|].
    now apply bind_Starved.
  - destruct (controller_init_run normal key r t tr) as (clf & Hn & Hrun).
    rewrite Hrun in E. injection E as <- <-.
    exists r. cbn [tape trace channel detector encryption]. auto.
Qed.

Lemma controller_init_ready normal key w0 ctl w1 frequency noise_level z :
  JamResistanceController_init normal key w0 = Return (ctl, w1) ->
  ready ctl (generate_signal frequency noise_level z).
Proof.
  intros E. destruct (controller_init_inv _ _ _ E)
    as (r & _ & _ & Hch & Hn & _).
  split; [|split].
  - intros Es. apply (f_equal (@length R)) in Es.
    rewrite generate_signal_length in Es. discriminate.
  - now rewrite generate_signal_length, Hn.
  - rewrite Hch. apply five_two_channels.
Qed.

(** X7.  [JamResistanceController.__init__] takes exactly one draw (the
    initial channel) and writes no event.  The controller it builds holds
    the channels 1 to 5 with one of them current, a detector fitted on 500
    features and the key it was given, and is ready for every waveform
    [generate_signal] produces.  Without a draw left it does not return. *)
Theorem controller_init_builds_ready normal key w0 :
  (forall ctl w1,
     JamResistanceController_init normal key w0 = Return (ctl, w1) ->
     (exists r, tape w0 = r :: tape w1) /\
     trace w1 = trace w0 /\
     channels (channel ctl) = [1; 2; 3; 4; 5]%Z /\
     In (current_channel (channel ctl)) (channels (channel ctl)) /\
     n_features_in_ (detector ctl) = 500%nat /\
     encryption ctl = key /\
     forall frequency noise_level z,
       ready ctl (generate_signal frequency noise_level z)) /\
  (tape w0 <> [] ->
   exists ctl w1,
     JamResistanceController_init normal key w0 = Return (ctl, w1)) /\
  (tape w0 = [] -> JamResistanceController_init normal key w0 = Starved).
Proof.
  split; [|split].
  - intros ctl w1 E.
    destruct (controller_init_inv _ _ _ E) as (r & Ht & Htr & Hch & Hn & Hk).
    split; [now exists r|]. split; [exact Htr|].
    rewrite Hch. cbn [channels current_channel].
    split; [reflexivity|]. split; [apply pick_member; discriminate|].
    split; [exact Hn|]. split; [exact Hk|].
    intros frequency noise_level z.
    eapply controller_init_ready. exact E.
  - intros Ht. destruct w0 as [[|r t] tr]; [now contradiction Ht|].
    destruct (controller_init_run normal key r t tr) as (clf & _ & Hrun).
    eauto.
  - intros Ht. unfold JamResistanceController_init, CommunicationChannel_init.
    apply bind_Starved. apply bind_Starved.
    unfold random_choice. now rewrite Ht.
Qed.

(** X9.  A cycle that finishes changes nothing of the controller but the
    current channel: detector, cipher and channel set are the same, and the
    current channel is a member of the channel set.  So the controller is
    ready for the next waveform of the same length. *)
Theorem cycle_keeps_controller self signal w a self' w' :
  monitor_and_respond self signal w = Return ((a, self'), w') ->
  detector self' = detector self /\
  encryption self' = encryption self /\
  channels (channel self') = channels (channel self) /\
  In (current_channel (channel self')) (channels (channel self)) /\
  forall signal',
    signal' <> [] -> length signal' = length signal -> ready self' signal'.
Proof.
  intros Hrun.
  pose proof (monitor_and_respond_ready _ _ _ Hrun) as Hready.
  destruct w as [t tr].
  destruct (monitor_and_respond_cases t tr Hready)
    as [Hst|(c1 & c2 & c3 & c4 & t' & _ & _ & _ & _ & Hin & _ & E)];
    [congruence|].
  rewrite E in Hrun.
  destruct (decrypt_result _ _) as [s| |]; try discriminate.
  injection Hrun as _ <- _.
  cbn [set_channel set_current detector encryption channel channels
         current_channel].
  destruct Hready as (_ & Hlen & Htwo).
  split; [reflexivity|]. split; [reflexivity|]. split; [reflexivity|].
  split; [exact Hin|].
  intros signal' Hne Hlen'. split; [exact Hne|]. split; [|exact Htwo].
  cbn [detector]. now rewrite Hlen'.
Qed.

(** X10.  A cycle finishes only on a waveform that has at least one sample
    and the length the detector was fitted on, with a channel set of two
    distinct members, and with a cipher that decrypts the token of the
    confirmation message to valid UTF-8. *)
Theorem cycle_finishes_only_when self signal tr :
  finishes self signal tr ->
  signal <> [] /\
  length signal = n_features_in_ (detector self) /\
  two_channels (channel self) /\
  exists s,
    decrypt_result (encryption self) (confirmation_token (encryption self))
    = Return s.
Proof.
  intros (t & a & self' & w' & Hrun).
  pose proof (monitor_and_respond_ready _ _ _ Hrun) as Hready.
  destruct (monitor_and_respond_finished t tr Hready Hrun)
    as (c1 & c2 & c3 & c4 & s & _ & _ & _ & _ & Hs & _).
  destruct Hready as (Hne & Hlen & Htwo).
  split; [exact Hne|]. split; [exact Hlen|]. split; [exact Htwo|].
  now exists s.
Qed.

(** X11.  A cycle on a waveform without samples raises [ValueError] at the
    scoring.  A cycle on a waveform of another length than the detector was
    fitted on raises [ValueError] at the classification, after the scoring
    and, when the scorer found an anomaly, after a first switch. *)
Theorem cycle_rejects_bad_waveform self signal t tr :
  (signal = [] ->
   monitor_and_respond self signal (mkWorld t tr) = Raise ValueError) /\
  (signal <> [] ->
   length signal <> n_features_in_ (detector self) ->
   (is_anomalous signal 100 = false ->
    monitor_and_respond self signal (mkWorld t tr) = Raise ValueError) /\
   (is_anomalous signal 100 = true ->
    two_channels (channel self) -> t <> [] ->
    monitor_and_respond self signal (mkWorld t tr) = Raise ValueError /\
    exists c t',
      switch_channel (channel self) (mkWorld t (tr ++ [OpScore]))
      = Return ((PyNone, set_current (channel self) c),
                mkWorld t'
                  (tr ++ [OpScore;
                          OpSwitch (current_channel (channel self)) c])))).
Proof.
  split.
  - intros ->. reflexivity.
  - intros Hs Hlen. rewrite monitor_and_respond_unfold.
    erewrite bind_Return by (now apply detect_anomaly_run).
    cbn [fst snd tape trace]. split.
    + intros ->. unfold switch_if.
      erewrite bind_Return by reflexivity.
      apply bind_Raise. now apply detect_jamming_pattern_mismatch.
    + intros -> Htwo Ht. destruct t as [|r t']; [congruence|].
      destruct (switch_channel_total (channel self) r t' (tr ++ [OpScore])
                  (two_channels_other Htwo)) as (c & Hsw).
      split.
      * unfold switch_if.
        erewrite bind_Return
          by (erewrite bind_Return by exact Hsw; reflexivity).
        apply bind_Raise. now apply detect_jamming_pattern_mismatch.
      * exists c, t'. rewrite Hsw. now rewrite <- app_assoc.
Qed.

(** ** The messages *)

Local Open Scope Z_scope.

Lemma utf8_encode_char_scalar c bs :
  utf8_encode_char c = Some bs -> scalar_value c.
Proof.
  unfold utf8_encode_char, scalar_value, is_surrogate.
  destruct (Z.ltb_spec c 0); [discriminate|].
  destruct (Z.ltb_spec c 0x80).
  { intros _. split; [lia|]. decide_tests. reflexivity. }
  destruct (Z.ltb_spec c 0x800).
  { intros _. split; [lia|]. decide_tests. reflexivity. }
  destruct (Z.ltb_spec c 0x10000).
  { destruct ((0xD800 <=? c) && (c <=? 0xDFFF)) eqn:Hs; [discriminate|].
    intros _. split; [lia|reflexivity]. }
  destruct (Z.ltb_spec c 0x110000); [|discriminate].
  intros _. split; [lia|]. decide_tests. reflexivity.
Qed.

Lemma utf8_encode_scalar s : forall bs,
  utf8_encode s = Some bs -> Forall scalar_value s.
Proof.
  induction s as [|c t IH]; intros bs; cbn [utf8_encode]; [constructor|].
  destruct (utf8_encode_char c) as [b|] eqn:Ec; [|discriminate].
  destruct (utf8_encode t) as [bt|] eqn:Et; [|discriminate].
  intros _. constructor; [eapply utf8_encode_char_scalar; exact Ec|].
  now apply (IH bt).
Qed.

(** X15.  [encrypt_message] returns a token exactly for the messages whose
    code points are all scalar values, and raises [UnicodeEncodeError] on
    every other message, before the cipher is used and before anything is
    logged.  The token is the cipher's encryption of the UTF-8 bytes of the
    message. *)
Theorem encrypt_message_accepts_scalars key message w :
  (Forall scalar_value message <->
   exists data,
     utf8_encode message = Some data /\
     encrypt_message key message w
     = Return (Fernet_encrypt key data,
               mkWorld (tape w) (trace w ++ [OpEncrypt]))) /\
  (~ Forall scalar_value message <->
   encrypt_message key message w = Raise UnicodeEncodeError).
Proof.
  split; split.
  - intros Hm. destruct (utf8_encode_defined Hm) as (data & Hdata).
    exists data. split; [exact Hdata|now apply encrypt_message_run].
  - intros (data & Hdata & _). eapply utf8_encode_scalar. exact Hdata.
  - intros Hm. apply encrypt_message_refused.
    destruct (utf8_encode message) as [data|] eqn:E; [|reflexivity].
    destruct Hm. eapply utf8_encode_scalar. exact E.
  - intros E Hm. destruct (utf8_encode_defined Hm) as (data & Hdata).
    erewrite encrypt_message_run in E by exact Hdata. discriminate.
Qed.

Lemma utf8_encode_1 b : 0 <= b < 0x80 -> utf8_encode_char b = Some [b].
Proof. intros H. unfold utf8_encode_char. decide_tests. reflexivity. Qed.

Lemma utf8_encode_2 b0 b1 :
  0xC2 <= b0 <= 0xDF -> 0x80 <= b1 <= 0xBF ->
  utf8_encode_char ((b0 - 0xC0) * 64 + (b1 - 0x80)) = Some [b0; b1].
Proof.
  intros H0 H1. remember ((b0 - 0xC0) * 64 + (b1 - 0x80)) as c eqn:Ec.
  assert (Hq : c / 64 = b0 - 0xC0)
    by (Z.to_euclidean_division_equations; lia).
  assert (Hm : c mod 64 = b1 - 0x80)
    by (Z.to_euclidean_division_equations; lia).
  unfold utf8_encode_char. rewrite Hq, Hm. decide_tests.
  do 2 f_equal; [lia|f_equal; lia].
Qed.

Lemma utf8_encode_3 b0 b1 b2 :
  let c := (b0 - 0xE0) * 4096 + (b1 - 0x80) * 64 + (b2 - 0x80) in
  0xE0 <= b0 <= 0xEF -> 0x80 <= b1 <= 0xBF -> 0x80 <= b2 <= 0xBF ->
  0x800 <= c -> is_surrogate c = false ->
  utf8_encode_char c = Some [b0; b1; b2].
Proof.
  intros c H0 H1 H2 Hc Hs.
  assert (Ec : c = (b0 - 0xE0) * 4096 + (b1 - 0x80) * 64 + (b2 - 0x80))
    by reflexivity.
  clearbody c.
  assert (Hq2 : c / 4096 = b0 - 0xE0)
    by (Z.to_euclidean_division_equations; lia).
  assert (Hq1 : (c / 64) mod 64 = b1 - 0x80)
    by (Z.to_euclidean_division_equations; lia).
  assert (Hm : c mod 64 = b2 - 0x80)
    by (Z.to_euclidean_division_equations; lia).
  unfold utf8_encode_char. rewrite Hs, Hq2, Hq1, Hm. decide_tests.
  do 2 f_equal; [lia|f_equal; [lia|f_equal; lia]].
Qed.

Lemma utf8_encode_4 b0 b1 b2 b3 :
  let c := (b0 - 0xF0) * 262144 + (b1 - 0x80) * 4096
           + (b2 - 0x80) * 64 + (b3 - 0x80) in
  0xF0 <= b0 <= 0xF4 -> 0x80 <= b1 <= 0xBF -> 0x80 <= b2 <= 0xBF ->
  0x80 <= b3 <= 0xBF -> 0x10000 <= c <= 0x10FFFF ->
  utf8_encode_char c = Some [b0; b1; b2; b3].
Proof.
  intros c H0 H1 H2 H3 Hc.
  assert (Ec : c = (b0 - 0xF0) * 262144 + (b1 - 0x80) * 4096
                   + (b2 - 0x80) * 64 + (b3 - 0x80)) by reflexivity.
  clearbody c.
  assert (Hq3 : c / 262144 = b0 - 0xF0)
    by (Z.to_euclidean_division_equations; lia).
  assert (Hq2 : (c / 4096) mod 64 = b1 - 0x80)
    by (Z.to_euclidean_division_equations; lia).
  assert (Hq1 : (c / 64) mod 64 = b2 - 0x80)
    by (Z.to_euclidean_division_equations; lia).
  assert (Hm : c mod 64 = b3 - 0x80)
    by (Z.to_euclidean_division_equations; lia).
  unfold utf8_encode_char. rewrite Hq3, Hq2, Hq1, Hm. decide_tests.
  do 2 f_equal; [lia|f_equal; [lia|f_equal; [lia|f_equal; lia]]].
Qed.

Local Close Scope Z_scope.

Local Open Scope Z_scope.

Lemma utf8_encode_cons c t :
  utf8_encode (c :: t)
  = match utf8_encode_char c, utf8_encode t with
    | Some b, Some bt => Some (b ++ bt)
    | _, _ => None
    end.
Proof. reflexivity. Qed.

Lemma is_cont_range b : is_cont b = true -> 0x80 <= b <= 0xBF.
Proof.
  unfold is_cont. intros H. apply andb_true_iff in H.
  destruct H as [H1 H2]. apply Z.leb_le in H1, H2. lia.
Qed.

Lemma between_range lo b hi :
  (lo <=? b) && (b <=? hi) = true -> lo <= b <= hi.
Proof.
  intros H. apply andb_true_iff in H.
  destruct H as [H1 H2]. apply Z.leb_le in H1, H2. lia.
Qed.

Lemma option_map_cons_inv (c : Z) o s :
  option_map (cons c) o = Some s -> exists t, o = Some t /\ s = c :: t.
Proof.
  destruct o as [t|]; cbn [option_map]; [|discriminate].
  intros E. injection E as <-. now exists t.
Qed.

(** Strict decoding has one preimage: the bytes it accepts are the encoding
    of the text it yields. *)
Lemma utf8_encode_decode n : forall bs,
  (length bs <= n)%nat ->
  forall s, utf8_decode bs = Some s -> utf8_encode s = Some bs.
Proof.
  induction n as [|n IH]; intros bs Hlen s.
  - destruct bs; [|cbn in Hlen; lia].
    intros E. injection E as <-. reflexivity.
  - destruct bs as [|b0 r0].
    { intros E. injection E as <-. reflexivity. }
    rewrite utf8_decode_cons.
    destruct ((0 <=? b0) && (b0 <? 0x80)) eqn:T1.
    { apply andb_true_iff in T1. destruct T1 as [Ha Hb].
      apply Z.leb_le in Ha. apply Z.ltb_lt in Hb.
      intros E. apply option_map_cons_inv in E.
      destruct E as (t & Hd & ->).
      rewrite utf8_encode_cons, utf8_encode_1 by lia.
      rewrite (IH r0) with (s := t); [reflexivity| |exact Hd].
      cbn [length] in Hlen. lia. }
    destruct ((0xC2 <=? b0) && (b0 <=? 0xDF)) eqn:T2.
    { apply between_range in T2.
      destruct r0 as [|b1 r1]; [discriminate|].
      destruct (is_cont b1) eqn:C1; [|discriminate].
      apply is_cont_range in C1.
      intros E. apply option_map_cons_inv in E.
      destruct E as (t & Hd & ->).
      rewrite utf8_encode_cons, utf8_encode_2 by lia.
      rewrite (IH r1) with (s := t); [reflexivity| |exact Hd].
      cbn [length] in Hlen. lia. }
    destruct ((0xE0 <=? b0) && (b0 <=? 0xEF)) eqn:T3.
    { apply between_range in T3.
      destruct r0 as [|b1 [|b2 r2]]; try discriminate.
      cbv zeta.
      destruct (is_cont b1) eqn:C1; [|discriminate].
      destruct (is_cont b2) eqn:C2; [|discriminate].
      apply is_cont_range in C1, C2. cbn [andb].
      destruct (0x800 <=? _) eqn:Hc; [|discriminate].
      destruct (is_surrogate _) eqn:Hs; [discriminate|].
      apply Z.leb_le in Hc. cbn [andb negb].
      intros E. apply option_map_cons_inv in E.
      destruct E as (t & Hd & ->).
      rewrite utf8_encode_cons, utf8_encode_3 by (lia || assumption).
      rewrite (IH r2) with (s := t); [reflexivity| |exact Hd].
      cbn [length] in Hlen. lia. }
    destruct ((0xF0 <=? b0) && (b0 <=? 0xF4)) eqn:T4; [|discriminate].
    apply between_range in T4.
    destruct r0 as [|b1 [|b2 [|b3 r3]]]; try discriminate.
    cbv zeta.
    destruct (is_cont b1) eqn:C1; [|discriminate].
    destruct (is_cont b2) eqn:C2; [|discriminate].
    destruct (is_cont b3) eqn:C3; [|discriminate].
    apply is_cont_range in C1, C2, C3. cbn [andb].
    destruct (0x10000 <=? _) eqn:Hc1; [|discriminate].
    destruct (_ <=? 0x10FFFF) eqn:Hc2; [|discriminate].
    apply Z.leb_le in Hc1, Hc2. cbn [andb].
    intros E. apply option_map_cons_inv in E.
    destruct E as (t & Hd & ->).
    rewrite utf8_encode_cons, utf8_encode_4 by lia.
    rewrite (IH r3) with (s := t); [reflexivity| |exact Hd].
    cbn [length] in Hlen. lia.
Qed.

(** X16.  The text [decrypt_message] returns encodes back to exactly the
    bytes the cipher released for the token, and all its code points are
    scalar values: [decrypt_message] reads no two plaintexts as the same
    text, and [encrypt_message] on its result encrypts the plaintext
    again. *)
Theorem decrypt_message_plaintext key token w text w' :
  decrypt_message key token w = Return (text, w') ->
  exists data,
    Fernet_decrypt key token = Some data /\
    utf8_encode text = Some data /\
    Forall scalar_value text /\
    forall w2,
      encrypt_message key text w2
      = Return (Fernet_encrypt key data,
                mkWorld (tape w2) (trace w2 ++ [OpEncrypt])).
Proof.
  rewrite decrypt_message_run. unfold decrypt_result.
  destruct (Fernet_decrypt key token) as [data|]; [|discriminate].
  destruct (utf8_decode data) as [s|] eqn:Hd; [|discriminate].
  intros E. injection E as <- _.
  pose proof (@utf8_encode_decode (length data) data (le_n _) s Hd)
    as Henc.
  exists data. split; [reflexivity|]. split; [exact Henc|].
  split; [eapply utf8_encode_scalar; exact Henc|].
  intros w2. now apply encrypt_message_run.
Qed.

(** X19.  Encrypting a message and decrypting the token gives the message
    back exactly when the message has UTF-8 bytes, which is when all its
    code points are scalar values, and the cipher decrypts the token of
    those bytes to the same bytes. *)
Theorem message_roundtrip key message w :
  (exists token w1 w2,
     encrypt_message key message w = Return (token, w1) /\
     decrypt_message key token w1 = Return (message, w2)) <->
  (exists data,
     utf8_encode message = Some data /\
     Fernet_decrypt key (Fernet_encrypt key data) = Some data).
Proof.
  split.
  - intros (token & w1 & w2 & Henc & Hdec).
    destruct (utf8_encode message) as [data|] eqn:Hdata.
    + exists data. split; [reflexivity|].
      rewrite (@encrypt_message_run key message data w Hdata) in Henc.
      injection Henc as <- _.
      rewrite decrypt_message_run in Hdec. unfold decrypt_result in Hdec.
      destruct (Fernet_decrypt key (Fernet_encrypt key data))
        as [data'|]; [|discriminate].
      destruct (utf8_decode data') as [s|] eqn:Hd; [|discriminate].
      injection Hdec as -> _.
      pose proof (@utf8_encode_decode (length data') data' (le_n _)
                    message Hd) as Hback.
      congruence.
    + rewrite encrypt_message_refused in Henc by exact Hdata. discriminate.
  - intros (data & Hdata & Hrt).
    exists (Fernet_encrypt key data). do 2 eexists.
    split; [now apply encrypt_message_run|].
    rewrite decrypt_message_run. unfold decrypt_result.
    rewrite Hrt, (utf8_roundtrip _ Hdata). reflexivity.
Qed.

Local Close Scope Z_scope.

(** ** The plot *)

Local Open Scope R_scope.

Lemma getitem_run A (a : list A) i d w :
  (i < length a)%nat -> getitem a i w = Return (nth i a d, w).
Proof.
  intros Hi. unfold getitem. now rewrite (nth_error_nth' a d Hi).
Qed.

Lemma halves n : (1 <= n)%nat -> ((n - 1) / 2 + 1 + n / 2 = n)%nat.
Proof.
  intros Hn.
  pose proof (Nat.div_mod_eq n 2) as E1.
  pose proof (Nat.mod_upper_bound n 2) as B1.
  pose proof (Nat.div_mod_eq (n - 1) 2) as E2.
  pose proof (Nat.mod_upper_bound (n - 1) 2) as B2.
  lia.
Qed.

Lemma half_le n : (1 <= n)%nat -> (n / 2 <= (n - 1) / 2 + 1)%nat.
Proof.
  intros Hn.
  pose proof (Nat.div_mod_eq n 2) as E1.
  pose proof (Nat.mod_upper_bound n 2) as B1.
  pose proof (Nat.div_mod_eq (n - 1) 2) as E2.
  pose proof (Nat.mod_upper_bound (n - 1) 2) as B2.
  lia.
Qed.

Lemma fftfreq_length n d : (1 <= n)%nat -> length (fftfreq n d) = n.
Proof.
  intros Hn. unfold fftfreq. cbv zeta.
  rewrite length_map, length_app, !length_map, !length_seq.
  now apply halves.
Qed.

Lemma fftfreq_nth n d k :
  (1 <= n)%nat -> (k < n / 2)%nat ->
  nth k (fftfreq n d) 0 = INR k * (1 / (INR n * d)).
Proof.
  intros Hn Hk.
  assert (Hk1 : (k < (n - 1) / 2 + 1)%nat)
    by (apply Nat.lt_le_trans with (n / 2)%nat;
        [exact Hk|now apply half_le]).
  assert (Hk2 : (k < (n - 1) / 2 + 1 + n / 2)%nat)
    by (now apply Nat.lt_lt_add_r).
  unfold fftfreq. cbv zeta.
  rewrite nth_map_in with (d' := 0)
    by (now rewrite length_app, !length_map, !length_seq).
  rewrite app_nth1 by (now rewrite length_map, length_seq).
  rewrite nth_map_in with (d' := 0%nat) by (now rewrite length_seq).
  rewrite seq_nth by exact Hk1. reflexivity.
Qed.

(** X17.  [plot_signal_and_spectrum] draws nothing for a waveform of fewer
    than two samples: without samples the transform raises [ValueError],
    and with one sample the time grid has no second point, so taking the
    sampling step raises [IndexError]. *)
Theorem plot_rejects_short_waveforms plt a w :
  plot_signal_and_spectrum plt [] w = Raise ValueError /\
  plot_signal_and_spectrum plt [a] w = Raise IndexError.
Proof. split; reflexivity. Qed.

(** X18.  For a waveform of [n] samples, [n] at least 2,
    [plot_signal_and_spectrum] raises nothing and draws two curves: the
    samples against the times [i / (n - 1)], and the first [n // 2]
    magnitudes of the spectrum against the frequencies [k * (n - 1) / n].
    With the 500 samples of a generated waveform, bin [k] is drawn at
    [k * 499 / 500] Hz. *)
Theorem plot_draws_both_curves plt signal w :
  (2 <= length signal)%nat ->
  let n := length signal in
  plot_signal_and_spectrum plt signal w
  = Return ((PyNone,
             plt ++ [map (fun i => (INR i / INR (n - 1), nth i signal 0))
                         (seq 0 n);
                     map (fun k => (INR k * (INR (n - 1) / INR n),
                                    nth k (magnitudes signal) 0))
                         (seq 0 (n / 2))]),
            w).
Proof.
  intros Hn n. unfold plot_signal_and_spectrum. fold n.
  assert (Hn1 : INR (n - 1) <> 0) by (apply not_0_INR; lia).
  assert (Hn0 : INR n <> 0) by (apply not_0_INR; lia).
  assert (Hfft : fft signal w = Return (dft signal, w)).
  { unfold fft. destruct signal; [cbn in Hn; lia|reflexivity]. }
  erewrite bind_Return by exact Hfft.
  fold (magnitudes signal).
  erewrite bind_Return
    by (apply getitem_run with (d := 0); rewrite linspace_length; lia).
  erewrite bind_Return
    by (apply getitem_run with (d := 0); rewrite linspace_length; lia).
  rewrite !linspace_nth by lia.
  set (d := 0 + INR 1 * ((1 - 0) / INR (n - 1))
            - (0 + INR 0 * ((1 - 0) / INR (n - 1)))).
  assert (Hd : d = 1 / INR (n - 1)) by (unfold d; cbn [INR]; field; exact Hn1).
  unfold plt_plot at 1.
  rewrite linspace_length. fold n. rewrite Nat.eqb_refl.
  erewrite bind_Return by reflexivity. cbn [snd].
  unfold plt_plot.
  rewrite !length_firstn, fftfreq_length, magnitudes_length by lia.
  fold n. rewrite Nat.eqb_refl.
  erewrite bind_Return by reflexivity. cbn [snd].
  unfold ret. rewrite <- app_assoc. cbn [app].
  assert (Hhalf : (n / 2 <= n)%nat)
    by (apply Nat.Div0.div_le_upper_bound; lia).
  assert (Hc1 : combine (linspace 0 1 n) signal
                = map (fun i => (INR i / INR (n - 1), nth i signal 0))
                      (seq 0 n)).
  { apply nth_ext with (d := (0, 0)) (d' := (0, 0)).
    - rewrite length_combine, linspace_length, length_map, length_seq.
      fold n. apply Nat.min_id.
    - intros i Hi.
      rewrite length_combine, linspace_length in Hi. fold n in Hi.
      rewrite Nat.min_id in Hi.
      rewrite combine_nth by (now rewrite linspace_length).
      rewrite nth_map_in with (d' := 0%nat) by (now rewrite length_seq).
      rewrite seq_nth by exact Hi. cbn [Nat.add].
      rewrite linspace_nth by (assumption || lia).
      f_equal. field. exact Hn1. }
  assert (Hc2 : combine (firstn (n / 2) (fftfreq n d))
                        (firstn (n / 2) (magnitudes signal))
                = map (fun k => (INR k * (INR (n - 1) / INR n),
                                 nth k (magnitudes signal) 0))
                      (seq 0 (n / 2))).
  { assert (Hl1 : length (firstn (n / 2) (fftfreq n d)) = (n / 2)%nat).
    { rewrite length_firstn, fftfreq_length by lia.
      now apply Nat.min_l. }
    assert (Hl2 : length (firstn (n / 2) (magnitudes signal)) = (n / 2)%nat).
    { rewrite length_firstn, magnitudes_length. fold n.
      now apply Nat.min_l. }
    apply nth_ext with (d := (0, 0)) (d' := (0, 0)).
    - rewrite length_combine, Hl1, Hl2, length_map, length_seq.
      apply Nat.min_id.
    - intros k Hk.
      rewrite length_combine, Hl1, Hl2, Nat.min_id in Hk.
      rewrite combine_nth by (now rewrite Hl1, Hl2).
      rewrite !nth_firstn.
      destruct (Nat.ltb_spec k (n / 2)) as [_|Hge];
        [|exfalso; apply (Nat.lt_irrefl k);
          now apply Nat.lt_le_trans with (n / 2)%nat].
      rewrite nth_map_in with (d' := 0%nat) by (now rewrite length_seq).
      rewrite seq_nth by exact Hk. cbn [Nat.add].
      rewrite fftfreq_nth by (assumption || lia). rewrite Hd.
      f_equal. field. split; assumption. }
  rewrite Hc1, Hc2. reflexivity.
Qed.

Local Close Scope R_scope.

End WithLibraries.

(** * The claims on sample data *)

(** ** Three sample cycles *)

Lemma five_channels_two : two_channels five_channels.
Proof.
  exists 1%Z, 2%Z. split; [now left|]. split; [right; now left|discriminate].
Qed.

Lemma silence_ready : ready quiet_controller silence.
Proof.
  split; [discriminate|]. split; [exact (repeat_length 0%R 500)|].
  exact five_channels_two.
Qed.

Lemma loud_ready : ready alarmed_controller loud.
Proof.
  split; [discriminate|]. split; [exact (repeat_length 1%R 500)|].
  exact five_channels_two.
Qed.

Lemma tag_accepts_confirmation :
  decrypt_result tag_decrypt 7%Z (confirmation_token tag_encrypt 7%Z)
  = Return confirmation.
Proof. vm_compute. reflexivity. Qed.

(** Neither detector fires; the hop goes from channel 1 to channel 2 and the
    recovery switch leads back to channel 1. *)
Lemma quiet_cycle :
  monitor_and_respond tag_encrypt tag_decrypt quiet_controller silence
    (mkWorld [1; 0]%nat [])
  = Return ((peak_amplitude silence, quiet_controller),
            mkWorld [] [OpScore; OpClassify; OpHop 1 2; OpRecovery;
                        OpSwitch 2 1; OpEncrypt; OpDecrypt]).
Proof.
  rewrite monitor_and_respond_unfold.
  erewrite bind_Return by (apply detect_anomaly_run; discriminate).
  cbn [fst snd tape trace app].
  change (is_anomalous silence 100)
    with (is_anomalous (repeat 0%R (S 499)) 100).
  rewrite is_anomalous_silence.
  erewrite bind_Return by reflexivity.
  erewrite bind_Return
    by (apply detect_jamming_pattern_run; exact (repeat_length 0%R 500)).
  reflexivity.
Qed.

(** Both detectors fire: two switches before the hop, one after it. *)
Lemma loud_cycle :
  monitor_and_respond tag_encrypt tag_decrypt alarmed_controller loud
    (mkWorld [0; 0; 1; 0]%nat [])
  = Return ((peak_amplitude loud, alarmed_controller),
            mkWorld [] [OpScore; OpSwitch 1 2; OpClassify; OpSwitch 2 1;
                        OpHop 1 2; OpRecovery; OpSwitch 2 1;
                        OpEncrypt; OpDecrypt]).
Proof.
  rewrite monitor_and_respond_unfold.
  erewrite bind_Return by (apply detect_anomaly_run; discriminate).
  cbn [fst snd tape trace app].
  change (is_anomalous loud 100) with (is_anomalous (repeat 1%R 500) 100).
  rewrite is_anomalous_loud.
  erewrite bind_Return by reflexivity.
  erewrite bind_Return
    by (apply detect_jamming_pattern_run; exact (repeat_length 1%R 500)).
  reflexivity.
Qed.


(** ** The cycle *)

(** C1 on the quiet controller and the silent waveform. *)
Lemma cycle_order_witness :
  (forall t a self' w',
    monitor_and_respond tag_encrypt tag_decrypt quiet_controller silence
      (mkWorld t [])
    = Return ((a, self'), w') ->
    exists c1 c2 c3 c4,
      trace w'
      = [] ++ cycle_trace (is_anomalous silence 100)
                (is_jammed quiet_detector silence) 1 c1 c2 c3 c4) /\
  ready quiet_controller silence /\
  decrypt_result tag_decrypt 7%Z (confirmation_token tag_encrypt 7%Z)
  = Return confirmation /\
  finishes tag_encrypt tag_decrypt quiet_controller silence [].
Proof.
  destruct (cycle_order tag_encrypt tag_decrypt quiet_controller silence [])
    as [Hall Hsome].
  split; [exact Hall|]. split; [exact silence_ready|].
  split; [exact tag_accepts_confirmation|].
  exact (Hsome silence_ready _ tag_accepts_confirmation).
Defined.

(** C1 as the spec has it fails on both sample cycles: in the quiet one the
    recovery strategy and its switch stand between the hop and the securing
    step; in the loud one a switch precedes the classification as well. *)
Lemma cycle_order_counterexample :
  (exists a self' w',
     monitor_and_respond tag_encrypt tag_decrypt quiet_controller silence
       (mkWorld [1; 0]%nat [])
     = Return ((a, self'), w') /\
     trace w' = [OpScore; OpClassify; OpHop 1 2; OpRecovery; OpSwitch 2 1;
                 OpEncrypt; OpDecrypt] /\
     claimed_order (trace w') = false) /\
  (exists a self' w',
     monitor_and_respond tag_encrypt tag_decrypt alarmed_controller loud
       (mkWorld [0; 0; 1; 0]%nat [])
     = Return ((a, self'), w') /\
     trace w' = [OpScore; OpSwitch 1 2; OpClassify; OpSwitch 2 1; OpHop 1 2;
                 OpRecovery; OpSwitch 2 1; OpEncrypt; OpDecrypt] /\
     claimed_order (trace w') = false).
Proof.
  split.
  - do 3 eexists. split; [exact quiet_cycle|]. split; reflexivity.
  - do 3 eexists. split; [exact loud_cycle|]. split; reflexivity.
Qed.

(** C2 on the loud waveform. *)
Lemma switch_count_witness :
  (forall t a self' w',
    monitor_and_respond tag_encrypt tag_decrypt alarmed_controller loud
      (mkWorld t [])
    = Return ((a, self'), w') ->
    exists evs,
      trace w' = [] ++ evs /\
      count is_switch (before_hop evs)
      = (b2n (is_anomalous loud 100)
         + b2n (is_jammed alarmed_detector loud))%nat /\
      count is_switch evs
      = (b2n (is_anomalous loud 100)
         + b2n (is_jammed alarmed_detector loud) + 1)%nat) /\
  ready alarmed_controller loud /\
  decrypt_result tag_decrypt 7%Z (confirmation_token tag_encrypt 7%Z)
  = Return confirmation /\
  finishes tag_encrypt tag_decrypt alarmed_controller loud [].
Proof.
  destruct (switch_count tag_encrypt tag_decrypt alarmed_controller loud [])
    as [Hall Hsome].
  split; [exact Hall|]. split; [exact loud_ready|].
  split; [exact tag_accepts_confirmation|].
  exact (Hsome loud_ready _ tag_accepts_confirmation).
Defined.

(** C2 as the spec has it fails both ways: with neither detector firing
    [switch_channel] is still invoked once, and with both firing it is
    invoked twice before the hop and three times in all. *)
Lemma switch_count_counterexample :
  (is_anomalous silence 100 = false /\
   is_jammed quiet_detector silence = false /\
   exists a self' w',
     monitor_and_respond tag_encrypt tag_decrypt quiet_controller silence
       (mkWorld [1; 0]%nat [])
     = Return ((a, self'), w') /\
     count is_switch (trace w') = 1%nat) /\
  (is_anomalous loud 100 = true /\
   is_jammed alarmed_detector loud = true /\
   exists a self' w',
     monitor_and_respond tag_encrypt tag_decrypt alarmed_controller loud
       (mkWorld [0; 0; 1; 0]%nat [])
     = Return ((a, self'), w') /\
     count is_switch (before_hop (trace w')) = 2%nat /\
     count is_switch (trace w') = 3%nat).
Proof.
  split.
  - split; [exact (is_anomalous_silence 499)|]. split; [reflexivity|].
    do 3 eexists. split; [exact quiet_cycle|]. reflexivity.
  - split; [exact is_anomalous_loud|]. split; [reflexivity|].
    do 3 eexists. split; [exact loud_cycle|]. split; reflexivity.
Qed.

(** C3 on the quiet controller. *)
Lemma one_hop_per_cycle_witness :
  (forall t a self' w',
    monitor_and_respond tag_encrypt tag_decrypt quiet_controller silence
      (mkWorld t [])
    = Return ((a, self'), w') ->
    exists ch2 w2 ch3 w3 w4 evs,
      reach_hop quiet_controller silence (mkWorld t [])
      = Return ((a, ch2), w2) /\
      frequency_hopping ch2 w2 = Return ((PyNone, ch3), w3) /\
      recovery_strategy ch3 w3 = Return ((PyNone, channel self'), w4) /\
      tape w' = tape w4 /\
      channels ch3 = [1; 2; 3; 4; 5]%Z /\
      In (current_channel ch3) [1; 2; 3; 4; 5]%Z /\
      current_channel ch3 <> current_channel ch2 /\
      trace w3
      = trace w2 ++ [OpHop (current_channel ch2) (current_channel ch3)] /\
      trace w' = [] ++ evs /\
      count is_hop evs = 1%nat) /\
  ready quiet_controller silence /\
  decrypt_result tag_decrypt 7%Z (confirmation_token tag_encrypt 7%Z)
  = Return confirmation /\
  finishes tag_encrypt tag_decrypt quiet_controller silence [].
Proof.
  destruct (one_hop_per_cycle tag_encrypt tag_decrypt quiet_controller silence [])
    as [Hall Hsome].
  split; [exact Hall|]. split; [exact silence_ready|].
  split; [exact tag_accepts_confirmation|].
  exact (Hsome silence_ready _ tag_accepts_confirmation).
Defined.

(** C3 as the spec has it fails on a call that raises before the hop: on a
    waveform without data points the scoring raises, the part of the cycle
    before the hop ends with that exception, the hop is never invoked, and
    the call returns nothing. *)
Lemma no_hop_counterexample :
  detect_anomaly [] 100 (mkWorld [1; 0]%nat []) = Raise ValueError /\
  reach_hop quiet_controller [] (mkWorld [1; 0]%nat []) = Raise ValueError /\
  monitor_and_respond tag_encrypt tag_decrypt quiet_controller []
    (mkWorld [1; 0]%nat [])
  = Raise ValueError.
Proof. repeat split. Qed.

(** C10 on the quiet controller. *)
Lemma hop_then_recovery_switch_witness :
  (forall t a self' w',
    monitor_and_respond tag_encrypt tag_decrypt quiet_controller silence
      (mkWorld t [])
    = Return ((a, self'), w') ->
    exists ch2 w2 ch3 w3 w4 evs,
      reach_hop quiet_controller silence (mkWorld t [])
      = Return ((a, ch2), w2) /\
      frequency_hopping ch2 w2 = Return ((PyNone, ch3), w3) /\
      recovery_strategy ch3 w3 = Return ((PyNone, channel self'), w4) /\
      switch_channel ch3 (mkWorld (tape w3) (trace w3 ++ [OpRecovery]))
      = Return ((PyNone, channel self'), w4) /\
      self' = set_channel quiet_controller (channel self') /\
      tape w' = tape w4 /\
      current_channel ch3 <> current_channel ch2 /\
      current_channel (channel self') <> current_channel ch3 /\
      In (current_channel ch3) [1; 2; 3; 4; 5]%Z /\
      In (current_channel (channel self')) [1; 2; 3; 4; 5]%Z /\
      trace w'
      = trace w2 ++ finish_trace (current_channel ch2) (current_channel ch3)
                      (current_channel (channel self')) /\
      trace w' = [] ++ evs /\
      (2 <= count changes_channel evs)%nat /\
      (is_anomalous silence 100 = false ->
       is_jammed quiet_detector silence = false ->
       ch2 = five_channels /\
       w2 = mkWorld t ([] ++ [OpScore; OpClassify]) /\
       count changes_channel evs = 2%nat)) /\
  ready quiet_controller silence /\
  decrypt_result tag_decrypt 7%Z (confirmation_token tag_encrypt 7%Z)
  = Return confirmation /\
  finishes tag_encrypt tag_decrypt quiet_controller silence [].
Proof.
  destruct (hop_then_recovery_switch tag_encrypt tag_decrypt quiet_controller silence [])
    as [Hall Hsome].
  split; [exact Hall|]. split; [exact silence_ready|].
  split; [exact tag_accepts_confirmation|].
  exact (Hsome silence_ready _ tag_accepts_confirmation).
Defined.

(** C10 as the spec has it fails on a call that raises before the hop: on a
    waveform of one sample, where the classifier was fitted on 500, the
    scoring finds nothing, so no switch answers it, and the classification
    raises; the call ends with that exception, and neither the hop nor the
    recovery strategy has run: the current channel has not changed at
    all. *)
Lemma no_change_counterexample :
  detect_anomaly [0%R] 100 (mkWorld [1; 0]%nat [])
  = Return ((false, peak_amplitude [0%R]), mkWorld [1; 0]%nat [OpScore]) /\
  detect_jamming_pattern quiet_detector [0%R] (mkWorld [1; 0]%nat [OpScore])
  = Raise ValueError /\
  reach_hop quiet_controller [0%R] (mkWorld [1; 0]%nat [])
  = Raise ValueError /\
  monitor_and_respond tag_encrypt tag_decrypt quiet_controller [0%R]
    (mkWorld [1; 0]%nat [])
  = Raise ValueError.
Proof.
  assert (Hscore :
    detect_anomaly [0%R] 100 (mkWorld [1; 0]%nat [])
    = Return ((false, peak_amplitude [0%R]), mkWorld [1; 0]%nat [OpScore])).
  { rewrite detect_anomaly_run by discriminate.
    change [0%R] with (repeat 0%R (S 0)).
    now rewrite is_anomalous_silence. }
  assert (Hcls : forall w,
    detect_jamming_pattern quiet_detector [0%R] w = Raise ValueError).
  { intros w. apply detect_jamming_pattern_mismatch. discriminate. }
  assert (Hpre :
    reach_hop quiet_controller [0%R] (mkWorld [1; 0]%nat [])
    = Raise ValueError).
  { unfold reach_hop.
    erewrite bind_Return by exact Hscore. cbn [fst snd].
    erewrite bind_Return by reflexivity.
    apply bind_Raise. apply Hcls. }
  split; [exact Hscore|]. split; [apply Hcls|]. split; [exact Hpre|].
  rewrite monitor_and_respond_split. apply bind_Raise. exact Hpre.
Qed.



(** ** The components *)

Lemma claimed_signal_nth frequency noise_level normal i :
  (i < 500)%nat ->
  nth i (claimed_signal frequency noise_level normal) 0%R
  = (sin (2 * PI * frequency * (INR i / 500)) + noise_level * normal i)%R.
Proof.
  intros Hi. unfold claimed_signal, half_open_grid, random_normal.
  rewrite vadd_nth;
    [|now rewrite !length_map, !length_seq
     |now rewrite !length_map, length_seq].
  f_equal.
  - rewrite nth_map_in with (d' := 0%R)
      by (now rewrite length_map, length_seq).
    rewrite nth_map_in with (d' := 0%nat) by (now rewrite length_seq).
    rewrite seq_nth by assumption. cbn [Nat.add].
    replace (INR 500) with 500%R
      by (rewrite INR_IZR_INZ; change (Z.of_nat 500) with 500%Z; reflexivity).
    reflexivity.
  - rewrite nth_map_in with (d' := 0%R)
      by (now rewrite length_map, length_seq).
    f_equal.
    rewrite nth_map_in with (d' := 0%nat) by (now rewrite length_seq).
    now rewrite seq_nth.
Qed.

(** C5 as the spec has it fails at frequency 1/4 without noise: the last
    sample of the script's waveform is the sine at time 1, which is 1; on the
    half-open grid the last sample is the sine at time 499/500, which is
    less. *)
Lemma half_open_grid_counterexample :
  generate_signal (1 / 4) 0 (fun _ => 0%R)
  <> claimed_signal (1 / 4) 0 (fun _ => 0%R)
  /\ nth 499 (generate_signal (1 / 4) 0 (fun _ => 0%R)) 0%R = 1%R
  /\ (nth 499 (claimed_signal (1 / 4) 0 (fun _ => 0%R)) 0%R < 1)%R
  /\ In 1%R (linspace 0 1 500).
Proof.
  assert (H499 : INR 499 = 499%R)
    by (rewrite INR_IZR_INZ; change (Z.of_nat 499) with 499%Z; reflexivity).
  assert (Hgen : nth 499 (generate_signal (1 / 4) 0 (fun _ => 0%R)) 0%R = 1%R).
  { rewrite generate_signal_nth by lia. rewrite H499.
    replace (2 * PI * (1 / 4) * (499 / 499))%R with (PI / 2)%R by field.
    rewrite sin_PI2. ring. }
  assert (Hcl : (nth 499 (claimed_signal (1 / 4) 0 (fun _ => 0%R)) 0%R < 1)%R).
  { rewrite claimed_signal_nth by lia. rewrite H499.
    pose proof PI_RGT_0 as Hpi.
    assert (Hlt : (sin (2 * PI * (1 / 4) * (499 / 500)) < sin (PI / 2))%R)
      by (apply sin_increasing_1; lra).
    rewrite sin_PI2 in Hlt. lra. }
  split; [|split; [exact Hgen|split; [exact Hcl|]]].
  - intros E. rewrite E in Hgen. lra.
  - rewrite linspace_unit_grid. apply in_map_iff. exists 499%nat.
    split; [rewrite H499; field|]. apply in_seq. lia.
Qed.

(** C6 on a waveform of one sample. *)
Lemma detect_anomaly_verdict_witness :
  [1%R] <> [] /\
  exists flag peak,
    (forall w,
       detect_anomaly [1%R] 100 w
       = Return ((flag, peak), mkWorld (tape w) (trace w ++ [OpScore]))) /\
    In peak (magnitudes [1%R]) /\
    (forall m, In m (magnitudes [1%R]) -> (m <= peak)%R) /\
    (0 <= peak)%R /\
    (flag = true <-> (peak > 100)%R).
Proof.
  assert (H : [1%R] <> []) by discriminate.
  split; [exact H|]. exact (detect_anomaly_verdict 100%R H).
Defined.

Lemma five_channels_nodup : NoDup (channels five_channels).
Proof.
  cbn [channels five_channels].
  repeat constructor; cbn [In]; intros H;
    repeat (destruct H as [H|H]; [discriminate|]); exact H.
Qed.

(** C7 on the five channels, channel 1 current. *)
Lemma switch_and_hop_select_another_witness :
  NoDup (channels five_channels) /\
  (2 <= length (channels five_channels))%nat /\
  In (current_channel five_channels) (channels five_channels) /\
  (forall v self' w',
     switch_channel five_channels (mkWorld [1%nat] [])
     = Return ((v, self'), w') ->
     v = PyNone /\ In (current_channel self') (channels five_channels) /\
     current_channel self' <> current_channel five_channels /\
     channels self' = channels five_channels) /\
  (forall v self' w',
     frequency_hopping five_channels (mkWorld [1%nat] [])
     = Return ((v, self'), w') ->
     v = PyNone /\ In (current_channel self') (channels five_channels) /\
     current_channel self' <> current_channel five_channels /\
     channels self' = channels five_channels) /\
  ([1%nat] <> [] ->
   exists self' w',
     switch_channel five_channels (mkWorld [1%nat] [])
     = Return ((PyNone, self'), w')) /\
  ((exists r, In r [1%nat] /\
              pick (channels five_channels) r
              <> current_channel five_channels) ->
   exists self' w',
     frequency_hopping five_channels (mkWorld [1%nat] [])
     = Return ((PyNone, self'), w')) /\
  (exists r, pick (channels five_channels) r
             <> current_channel five_channels).
Proof.
  assert (Hlen : (2 <= length (channels five_channels))%nat)
    by (cbn; lia).
  assert (Hin : In (current_channel five_channels) (channels five_channels))
    by (now left).
  split; [exact five_channels_nodup|]. split; [exact Hlen|].
  split; [exact Hin|].
  exact (switch_and_hop_select_another five_channels [1%nat] []
           five_channels_nodup Hlen Hin).
Defined.

(** C7 as the spec has it fails on what the operations return: both return
    [None], not the channel they selected. *)
Lemma returns_none_counterexample :
  switch_channel five_channels (mkWorld [1%nat] [])
  = Return ((PyNone, mkChannel [1; 2; 3; 4; 5]%Z 3),
            mkWorld [] [OpSwitch 1 3]) /\
  frequency_hopping five_channels (mkWorld [1%nat] [])
  = Return ((PyNone, mkChannel [1; 2; 3; 4; 5]%Z 2),
            mkWorld [] [OpHop 1 2]) /\
  ~ returns_new_channel switch_channel /\
  ~ returns_new_channel frequency_hopping.
Proof.
  assert (Hs : switch_channel five_channels (mkWorld [1%nat] [])
               = Return ((PyNone, mkChannel [1; 2; 3; 4; 5]%Z 3),
                         mkWorld [] [OpSwitch 1 3])) by reflexivity.
  assert (Hh : frequency_hopping five_channels (mkWorld [1%nat] [])
               = Return ((PyNone, mkChannel [1; 2; 3; 4; 5]%Z 2),
                         mkWorld [] [OpHop 1 2])) by reflexivity.
  split; [exact Hs|]. split; [exact Hh|]. split.
  - intros H. specialize (H _ _ _ _ _ Hs). discriminate.
  - intros H. specialize (H _ _ _ _ _ Hh). discriminate.
Qed.

(** C9 on a classifier fitted on one row of two samples. *)
Lemma predict_rejects_other_lengths_witness :
  clf_fit (fun _ _ _ => 0%Z) [[1%R; 2%R]] [0%Z] (mkWorld [] [])
  = Return (mkForest 2 (fun _ => 0%Z), mkWorld [] []) /\
  (exists row, In row [[1%R; 2%R]] /\ length [1%R] <> length row) /\
  detect_jamming_pattern (mkForest 2 (fun _ => 0%Z)) [1%R] (mkWorld [] [])
  = Raise ValueError.
Proof.
  assert (Hfit : clf_fit (fun _ _ _ => 0%Z) [[1%R; 2%R]] [0%Z] (mkWorld [] [])
                 = Return (mkForest 2 (fun _ => 0%Z), mkWorld [] []))
    by reflexivity.
  assert (Hrow : exists row, In row [[1%R; 2%R]]
                             /\ length [1%R] <> length row).
  { exists [1%R; 2%R]. split; [now left|discriminate]. }
  split; [exact Hfit|]. split; [exact Hrow|].
  exact (predict_rejects_other_lengths (fun _ _ _ => 0%Z)
           [[1%R; 2%R]] [0%Z] (mkWorld [] []) [1%R] (mkWorld [] [])
           Hfit Hrow).
Defined.

(** * The further properties on sample data *)

(** X3 on a channel set with one member. *)
Lemma frequency_hopping_spins_witness :
  (forall c, In c (channels (mkChannel [3%Z] 3)) ->
             c = current_channel (mkChannel [3%Z] 3)) /\
  (channels (mkChannel [3%Z] 3) <> [] ->
   frequency_hopping (mkChannel [3%Z] 3) (mkWorld [0; 1; 2]%nat [])
   = Starved) /\
  (channels (mkChannel [3%Z] 3) = [] ->
   frequency_hopping (mkChannel [3%Z] 3) (mkWorld [0; 1; 2]%nat [])
   = Raise IndexError).
Proof.
  assert (H : forall c, In c (channels (mkChannel [3%Z] 3)) ->
                        c = current_channel (mkChannel [3%Z] 3)).
  { intros c [<-|[]]. reflexivity. }
  split; [exact H|].
  apply frequency_hopping_spins. exact H.
Defined.

(** X4 on the five channels: two draws select the current channel 1, the
    third selects channel 3. *)
Lemma frequency_hopping_first_other_witness :
  channels five_channels <> [] /\
  Forall (fun d => pick (channels five_channels) d
                   = current_channel five_channels) [0; 5]%nat /\
  pick (channels five_channels) 7 <> current_channel five_channels /\
  frequency_hopping five_channels (mkWorld ([0; 5] ++ 7 :: [9])%nat [])
  = Return ((PyNone,
             set_current five_channels (pick (channels five_channels) 7)),
            mkWorld [9%nat]
              ([] ++ [OpHop (current_channel five_channels)
                            (pick (channels five_channels) 7)])).
Proof.
  assert (H1 : channels five_channels <> []) by discriminate.
  assert (H2 : Forall (fun d => pick (channels five_channels) d
                                = current_channel five_channels)
                      [0; 5]%nat)
    by (repeat constructor).
  assert (H3 : pick (channels five_channels) 7
               <> current_channel five_channels) by discriminate.
  split; [exact H1|]. split; [exact H2|]. split; [exact H3|].
  apply frequency_hopping_first_other; assumption.
Defined.

(** X5 on the five channels: channel 4 from channel 1. *)
Lemma every_other_channel_reachable_witness :
  In 4%Z (channels five_channels) /\
  4%Z <> current_channel five_channels /\
  (exists r, forall t tr,
      switch_channel five_channels (mkWorld (r :: t) tr)
      = Return ((PyNone, set_current five_channels 4),
                mkWorld t
                  (tr ++ [OpSwitch (current_channel five_channels) 4]))) /\
  (exists r, forall t tr,
      frequency_hopping five_channels (mkWorld (r :: t) tr)
      = Return ((PyNone, set_current five_channels 4),
                mkWorld t
                  (tr ++ [OpHop (current_channel five_channels) 4]))).
Proof.
  assert (H1 : In 4%Z (channels five_channels))
    by (do 3 right; now left).
  assert (H2 : 4%Z <> current_channel five_channels) by discriminate.
  split; [exact H1|]. split; [exact H2|].
  apply every_other_channel_reachable; assumption.
Defined.

(** X9 on the quiet cycle. *)
Lemma cycle_keeps_controller_witness :
  monitor_and_respond tag_encrypt tag_decrypt quiet_controller silence
    (mkWorld [1; 0]%nat [])
  = Return ((peak_amplitude silence, quiet_controller),
            mkWorld [] [OpScore; OpClassify; OpHop 1 2; OpRecovery;
                        OpSwitch 2 1; OpEncrypt; OpDecrypt]) /\
  detector quiet_controller = detector quiet_controller /\
  encryption quiet_controller = encryption quiet_controller /\
  channels (channel quiet_controller) = channels (channel quiet_controller) /\
  In (current_channel (channel quiet_controller))
     (channels (channel quiet_controller)) /\
  forall signal',
    signal' <> [] -> length signal' = length silence ->
    ready quiet_controller signal'.
Proof.
  split; [exact quiet_cycle|].
  eapply cycle_keeps_controller. exact quiet_cycle.
Defined.

(** X10 on the quiet cycle. *)
Lemma cycle_finishes_only_when_witness :
  finishes tag_encrypt tag_decrypt quiet_controller silence [] /\
  silence <> [] /\
  length silence = 500%nat /\
  two_channels five_channels /\
  exists s,
    decrypt_result tag_decrypt 7%Z (confirmation_token tag_encrypt 7%Z)
    = Return s.
Proof.
  assert (H : finishes tag_encrypt tag_decrypt quiet_controller silence []).
  { exists [1; 0]%nat. do 3 eexists. exact quiet_cycle. }
  split; [exact H|].
  exact (cycle_finishes_only_when H).
Defined.

(** X16 on the token of the confirmation message. *)
Lemma decrypt_message_plaintext_witness :
  decrypt_message tag_decrypt 7%Z (tag_encrypt 7%Z confirmation)
    (mkWorld [] [])
  = Return (confirmation, mkWorld [] [OpDecrypt]) /\
  exists data,
    tag_decrypt 7%Z (tag_encrypt 7%Z confirmation) = Some data /\
    utf8_encode confirmation = Some data /\
    Forall scalar_value confirmation /\
    forall w2,
      encrypt_message tag_encrypt 7%Z confirmation w2
      = Return (tag_encrypt 7%Z data,
                mkWorld (tape w2) (trace w2 ++ [OpEncrypt])).
Proof.
  assert (H : decrypt_message tag_decrypt 7%Z
                (tag_encrypt 7%Z confirmation) (mkWorld [] [])
              = Return (confirmation, mkWorld [] [OpDecrypt]))
    by (vm_compute; reflexivity).
  split; [exact H|].
  eapply decrypt_message_plaintext. exact H.
Defined.

(** X18 on a waveform of two samples. *)
Lemma plot_draws_both_curves_witness :
  (2 <= length [1%R; 2%R])%nat /\
  let n := length [1%R; 2%R] in
  plot_signal_and_spectrum [] [1%R; 2%R] (mkWorld [] [])
  = Return ((PyNone,
             [] ++ [map (fun i => ((INR i / INR (n - 1))%R,
                                   nth i [1%R; 2%R] 0%R))
                        (seq 0 n);
                    map (fun k => ((INR k * (INR (n - 1) / INR n))%R,
                                   nth k (magnitudes [1%R; 2%R]) 0%R))
                        (seq 0 (n / 2))]),
            mkWorld [] []).
Proof.
  assert (H : (2 <= length [1%R; 2%R])%nat) by apply le_n.
  split; [exact H|].
  apply (plot_draws_both_curves [] [1%R; 2%R] (mkWorld [] []) H).
Defined.
